(** * MeetC2: command codec, output codec and dispatch logic

    A shallow embedding of the text protocol of [guest.go] (the polling
    guest) and of the organizer console, with the properties the
    specification states about them.

    Go strings are modelled as sequences of Unicode code points
    ([list N]): the text handled here (summaries, descriptions, host
    names) is UTF-8 text, on which the byte-wise functions of package
    [strings] ([HasPrefix], [Contains], [Split], ...) agree with their
    code-point-wise reading, and [TrimSpace] / [Fields] are defined by the
    code points that [unicode.IsSpace] accepts. *)

From stdpp Require Import base list gmap strings.
From Stdlib Require Import NArith Lia.

Local Open Scope N_scope.

(** ** Strings *)

Abbreviation rune := N (only parsing).
Abbreviation str := (list N) (only parsing).

(** A Rocq string literal read as a Go string (ASCII only). *)
Definition lit (s : string) : str :=
  Ascii.N_of_ascii <$> String.list_ascii_of_string s.

(** The newline character, written [\n] in the Go sources. *)
Definition nl : rune := 10.

Module GoStrings.

(** [unicode.IsSpace]: the Latin-1 spaces and the White_Space table. *)
Definition IsSpace (r : rune) : bool :=
  ((9 <=? r) && (r <=? 13)) || (r =? 32) || (r =? 0x85) || (r =? 0xA0)
  || (r =? 0x1680) || ((0x2000 <=? r) && (r <=? 0x200A))
  || (r =? 0x2028) || (r =? 0x2029) || (r =? 0x202F) || (r =? 0x205F)
  || (r =? 0x3000).

(** [strings.HasPrefix(s, prefix)]. *)
Fixpoint HasPrefix (s prefix : str) {struct prefix} : bool :=
  match prefix, s with
  | [], _ => true
  | _ :: _, [] => false
  | a :: prefix', b :: s' => (a =? b) && HasPrefix s' prefix'
  end.

(** [strings.HasSuffix(s, suffix)]. *)
Definition HasSuffix (s suffix : str) : bool :=
  HasPrefix (reverse s) (reverse suffix).

(** [strings.TrimPrefix(s, prefix)]: [s] without the prefix when it has it,
    [s] itself otherwise. *)
Definition TrimPrefix (s prefix : str) : str :=
  if HasPrefix s prefix then drop (length prefix) s else s.

(** [strings.TrimSuffix(s, suffix)]. *)
Definition TrimSuffix (s suffix : str) : str :=
  if HasSuffix s suffix then take (length s - length suffix)%nat s else s.

(** Leading white space removed. *)
Fixpoint trimLeft (s : str) : str :=
  match s with
  | [] => []
  | c :: s' => if IsSpace c then trimLeft s' else s
  end.

(** Trailing white space removed. *)
Fixpoint trimRight (s : str) : str :=
  match s with
  | [] => []
  | c :: s' =>
      match trimRight s' with
      | [] => if IsSpace c then [] else [c]
      | t => c :: t
      end
  end.

(** [strings.TrimSpace(s)]. *)
Definition TrimSpace (s : str) : str := trimRight (trimLeft s).

(** [strings.Fields(s)]: the maximal runs of non-space characters. *)
Fixpoint Fields (s : str) : list str :=
  match s with
  | [] => []
  | c :: s' =>
      if IsSpace c then Fields s'
      else
        match s' with
        | [] => [[c]]
        | d :: _ =>
            if IsSpace d then [c] :: Fields s'
            else
              match Fields s' with
              | f :: fs => (c :: f) :: fs
              | [] => [[c]]
              end
        end
  end.

(** [strings.Join(elems, sep)]. *)
Fixpoint Join (elems : list str) (sep : str) : str :=
  match elems with
  | [] => []
  | e :: rest =>
      match rest with
      | [] => e
      | _ :: _ => e ++ sep ++ Join rest sep
      end
  end.

(** [strings.Split(s, sep)] for a separator of one character, the only
    use the sources make of it ([Split(description, "\n")]).  The result is
    never empty: [Split("", sep)] is the list holding one empty string. *)
Fixpoint Split (s : str) (sep : rune) : list str :=
  match s with
  | [] => [[]]
  | c :: s' =>
      if c =? sep then [] :: Split s' sep
      else
        match Split s' sep with
        | l :: ls => (c :: l) :: ls
        | [] => [[c]]
        end
  end.

(** The text before and after the first occurrence of [sep], if any. *)
Fixpoint cut (s : str) (sep : rune) : option (str * str) :=
  match s with
  | [] => None
  | c :: s' =>
      if c =? sep then Some ([], s')
      else
        match cut s' sep with
        | Some (before, after) => Some (c :: before, after)
        | None => None
        end
  end.

(** [strings.SplitN(s, sep, 2)] for a separator of one character: at most
    two parts, split at the first separator. *)
Definition SplitN2 (s : str) (sep : rune) : list str :=
  match cut s sep with
  | Some (before, after) => [before; after]
  | None => [s]
  end.

(** [strings.Contains(s, substr)]. *)
Fixpoint Contains (s substr : str) : bool :=
  HasPrefix s substr ||
  match s with
  | [] => false
  | _ :: s' => Contains s' substr
  end.

(** [strings.ReplaceAll(s, old, new)] for an [old] of two characters
    [a b]: non-overlapping occurrences, left to right. *)
Fixpoint ReplaceAll2 (s : str) (a b : rune) (new : str) : str :=
  match s with
  | [] => []
  | c :: t =>
      match t with
      | [] => [c]
      | d :: t' =>
          if (c =? a) && (d =? b) then new ++ ReplaceAll2 t' a b new
          else c :: ReplaceAll2 t a b new
      end
  end.

End GoStrings.
Import GoStrings.

(** ** Base64 ([encoding/base64], [StdEncoding]) *)

Module base64.

(** The character of the standard alphabet at index [n < 64]. *)
Definition alphabet (n : N) : rune :=
  if n <? 26 then 65 + n
  else if n <? 52 then 97 + (n - 26)
  else if n <? 62 then 48 + (n - 52)
  else if n =? 62 then 43
  else 47.

Definition pad : rune := 61.

(** [base64.StdEncoding.EncodeToString(data)], [data] a sequence of bytes. *)
Fixpoint EncodeToString (data : list N) : str :=
  match data with
  | [] => []
  | a :: data1 =>
      match data1 with
      | [] =>
          [alphabet (N.shiftr a 2); alphabet (N.shiftl (N.land a 3) 4); pad; pad]
      | b :: data2 =>
          match data2 with
          | [] =>
              [alphabet (N.shiftr a 2);
               alphabet (N.lor (N.shiftl (N.land a 3) 4) (N.shiftr b 4));
               alphabet (N.shiftl (N.land b 15) 2); pad]
          | c :: rest =>
              [alphabet (N.shiftr a 2);
               alphabet (N.lor (N.shiftl (N.land a 3) 4) (N.shiftr b 4));
               alphabet (N.lor (N.shiftl (N.land b 15) 2) (N.shiftr c 6));
               alphabet (N.land c 63)] ++ EncodeToString rest
          end
      end
  end.

End base64.

(** ** The guest ([guest.go]) *)

(** The fields of [Guest] that the protocol reads; [service] is the store,
    threaded explicitly below. *)
Record Guest := {
  calendarID : str;
  commandPrefix : str;
  hostname : str;
}.

(** [NewGuest]: the prefix is the constant of the protocol; the host name is
    what [os.Hostname()] answered. *)
Definition NewGuest (calendarID host : str) : Guest :=
  {| calendarID := calendarID;
     commandPrefix := lit "Meeting from nobody:";
     hostname := host |}.

(** What the guest asks of its operating system. *)
Record OS := {
  Getenv : str -> str;
  Getwd : str;
  (** [os.ReadFile]: the bytes of the file, or the text of the error. *)
  ReadFile : str -> sum (list N) str;
  GOOS : str;
  GOARCH : str;
  (** [exec.Command(name, args...).CombinedOutput()]: the output and,
      when the command failed, the text of the error. *)
  CombinedOutput : str -> list str -> str * option str;
}.

(** The text properties of a VEVENT as [Props.Text] returns them to the
    guest; [Summary] is [None] when reading it fails. *)
Record Component := {
  Summary : option str;
  Description : str;
  UID : str;
}.

(** A calendar object: its path and its parsed data ([None] for [nil]),
    the children of the VCALENDAR. *)
Record CalendarObject := {
  Path : str;
  Data : option (list Component);
}.

(** [fmt.Sprintf("[OUTPUT-%s]", host)], the start marker. *)
Definition startMarker (host : str) : str := lit "[OUTPUT-" ++ host ++ lit "]".

(** [fmt.Sprintf("[/OUTPUT-%s]", host)], the end marker. *)
Definition endMarker (host : str) : str := lit "[/OUTPUT-" ++ host ++ lit "]".

(** The command line split into the command and its arguments, joined
    again by single spaces (lines 176-184). *)
Definition splitCommand (actualCmd : str) : str * str :=
  let cmdParts := Fields actualCmd in
  let command := match cmdParts with c :: _ => c | [] => [] end in
  let args := match cmdParts with _ :: (_ :: _) as rest => Join rest (lit " ") | _ => [] end in
  (command, args).

(** The body of the loop of [CheckAndExecute] from the prefix test to the
    call of [ExecuteCommand] (lines 152-184): [Some (command, args)] when
    the command is executed, [None] when the entry is skipped
    ([continue]). *)
Definition eventAction (g : Guest) (summary description : str) : option (str * str) :=
  if negb (HasPrefix summary (commandPrefix g)) then None
  else if Contains description (startMarker (hostname g)) then None
  else
    let commandLine := TrimSpace (TrimPrefix summary (commandPrefix g)) in
    if HasPrefix commandLine (lit "@") then
      match SplitN2 commandLine 58 with
      | [part0; part1] =>
          let targetHost := TrimPrefix part0 (lit "@") in
          if bool_decide (targetHost <> []) && bool_decide (targetHost <> hostname g)
             && bool_decide (targetHost <> lit "*")
          then None
          else Some (splitCommand part1)
      | _ => Some (splitCommand commandLine)
      end
    else Some (splitCommand commandLine).

(** [ExecuteCommand].  The delayed self-removal that [exit] schedules runs
    after the answer is returned and is not part of the returned text. *)
Definition ExecuteCommand (g : Guest) (os : OS) (command args : str) : str :=
  let hostInfo := lit "[Host: " ++ hostname g ++ lit "]" ++ [nl] in
  if bool_decide (command = lit "whoami") then
    let user := Getenv os (lit "USER") in
    let user := if bool_decide (user = []) then Getenv os (lit "USERNAME") else user in
    let user := if bool_decide (user = []) then lit "unknown" else user in
    hostInfo ++ lit "User: " ++ user ++ [nl] ++ lit "Hostname: " ++ hostname g
      ++ [nl] ++ lit "OS: " ++ GOOS os ++ lit "/" ++ GOARCH os
  else if bool_decide (command = lit "pwd") then
    hostInfo ++ Getwd os
  else if bool_decide (command = lit "upload") then
    let filepath := TrimSpace args in
    match ReadFile os filepath with
    | inr err => hostInfo ++ lit "Error: " ++ err
    | inl data =>
        let encoded := base64.EncodeToString data in
        hostInfo ++ lit "File: " ++ filepath ++ [nl] ++ lit "[DATA]" ++ [nl]
          ++ encoded ++ [nl] ++ lit "[/DATA]"
    end
  else if bool_decide (command = lit "exit") then
    hostInfo ++ lit "Terminating..."
  else
    let '(output, err) :=
      if bool_decide (GOOS os = lit "windows")
      then CombinedOutput os (lit "cmd") [lit "/c"; command ++ lit " " ++ args]
      else CombinedOutput os (lit "sh") [lit "-c"; command ++ lit " " ++ args] in
    match err with
    | Some e => hostInfo ++ lit "Error: " ++ e ++ [nl] ++ output
    | None => hostInfo ++ output
    end.

(** The description written back (lines 261-262). *)
Definition newDescription (description host output : str) : str :=
  description ++ [nl; nl] ++ startMarker host ++ [nl] ++ output ++ [nl]
    ++ endMarker host.

(** How the calendar server answers the guest: whether
    [GetCalendarObject] fails for a path (also for an object it holds), and
    whether it accepts the object put at a path ([PutCalendarObject]). *)
Record Server := {
  fetchFails : str -> bool;
  putAccepted : str -> list Component -> bool;
}.

(** [UpdateEventWithOutput]: the object is fetched again by its path, the
    description of its first child is extended, and the whole object is put
    back ([eventUID] is not used).  [None] is the run-time panic of
    [cal.Children[0]] on an object without children.  A failed fetch returns
    an error and leaves the store as it is; so does a put the server
    refuses, whose error is only logged. *)
Definition UpdateEventWithOutput (g : Guest) (srv : Server)
    (store : gmap str (option (list Component))) (eventUID output eventPath : str)
  : option (gmap str (option (list Component))) :=
  if fetchFails srv eventPath then Some store
  else
    match store !! eventPath with
    | None => Some store
    | Some None => Some store
    | Some (Some []) => None
    | Some (Some (vevent :: others)) =>
        let vevent' :=
          {| Summary := Summary vevent;
             Description := newDescription (Description vevent) (hostname g) output;
             UID := UID vevent |} in
        if putAccepted srv eventPath (vevent' :: others)
        then Some (<[eventPath := Some (vevent' :: others)]> store)
        else Some store
    end.

(** The store together with the record of the commands handed to
    [ExecuteCommand], oldest first (kept to state what was executed). *)
Record World := {
  store : gmap str (option (list Component));
  executed : list (str * str);
}.

(** One iteration of the loop of [CheckAndExecute] (lines 130-188). *)
Definition processEvent (g : Guest) (os : OS) (srv : Server) (w : World)
    (eventData : CalendarObject) : option World :=
  match Data eventData with
  | None => Some w
  | Some [] => Some w
  | Some (vevent :: _) =>
      match Summary vevent with
      | None => Some w
      | Some summary =>
          match eventAction g summary (Description vevent) with
          | None => Some w
          | Some (command, args) =>
              let output := ExecuteCommand g os command args in
              match UpdateEventWithOutput g srv (store w) (UID vevent) output
                      (Path eventData) with
              | None => None
              | Some store' =>
                  Some {| store := store'; executed := executed w ++ [(command, args)] |}
              end
          end
      end
  end.

(** The loop of [CheckAndExecute] over the events, in order; a panic ends
    it. *)
Fixpoint processEvents (g : Guest) (os : OS) (srv : Server) (w : World)
    (events : list CalendarObject) : option World :=
  match events with
  | [] => Some w
  | eventData :: rest =>
      match processEvent g os srv w eventData with
      | None => None
      | Some w' => processEvents g os srv w' rest
      end
  end.

(** [CheckAndExecute] on the answer of the store to the query of the next
    24 hours: [None] for a failed query, after which nothing is done. *)
Definition CheckAndExecute (g : Guest) (os : OS) (srv : Server) (w : World)
    (answer : option (list CalendarObject)) : option World :=
  match answer with
  | None => Some w
  | Some events => processEvents g os srv w events
  end.

(** ** The organizer console *)

(** The properties of a VEVENT as the organizer reads them: for SUMMARY,
    DESCRIPTION and UID, the raw [Value] of the property, or [None] when the
    VEVENT has no such property ([Props.Get] then returns [nil], and reading
    [.Value] off it is a run-time panic). *)
Record RawEvent := {
  rawSummary : option str;
  rawDescription : option str;
  rawUID : option str;
}.

(** An object of a query's answer: its path and the VEVENTs of its data
    ([None] for [nil]). *)
Record RawObject := {
  rawPath : str;
  rawData : option (list RawEvent);
}.

(** [CreateCommand]: the object put at [eventPath] for the console line
    [exec <command>]; [uid] is the fresh identifier. *)
Definition CreateCommand (eventPath uid command : str) : CalendarObject :=
  {| Path := eventPath;
     Data := Some [ {| Summary := Some (lit "Meeting from nobody: " ++ command);
                       Description := [];
                       UID := uid |} ] |}.

(** The [exec] case of [InteractiveMode] (lines 97-110): the command handed
    to [CreateCommand] for a line of input, if the line is an [exec] with at
    least one word after it. *)
Definition execCommand (input : str) : option str :=
  match Fields input with
  | part0 :: (_ :: _) as rest =>
      if bool_decide (part0 = lit "exec") then Some (Join rest (lit " ")) else None
  | _ => None
  end.

(** [getExecutedHosts]. *)
Definition getExecutedHosts (description : str) : list str :=
  foldl (fun hosts line =>
           if HasPrefix line (lit "[OUTPUT-") && HasSuffix line (lit "]")
           then hosts ++ [TrimSuffix (TrimPrefix line (lit "[OUTPUT-")) (lit "]")]
           else hosts)
        [] (Split description nl).

(** The variables of the loop of [extractHostOutputs]. *)
Record ScanVars := {
  outputs : gmap str str;
  currentHost : str;
  capturing : bool;
  output : str;
}.

(** The body of the loop of [extractHostOutputs] (lines 333-356). *)
Definition scanLine (v : ScanVars) (line : str) : ScanVars :=
  let trimmedLine := TrimSpace line in
  if HasPrefix trimmedLine (lit "[OUTPUT-") && negb (HasPrefix trimmedLine (lit "[/OUTPUT-"))
  then
    {| outputs := outputs v;
       currentHost := TrimSuffix (TrimPrefix trimmedLine (lit "[OUTPUT-")) (lit "]");
       capturing := true;
       output := [] |}
  else if HasPrefix trimmedLine (lit "[/OUTPUT-") then
    {| outputs := if capturing v && bool_decide (currentHost v <> [])
                  then <[currentHost v := output v]> (outputs v)
                  else outputs v;
       currentHost := [];
       capturing := false;
       output := output v |}
  else if capturing v then
    {| outputs := outputs v;
       currentHost := currentHost v;
       capturing := true;
       output := (if (0 <? length (output v))%nat then output v ++ [nl] else output v)
                   ++ line |}
  else v.

(** [extractHostOutputs]. *)
Definition extractHostOutputs (description : str) : gmap str str :=
  outputs
    (foldl scanLine
       {| outputs := ∅; currentHost := []; capturing := false; output := [] |}
       (Split description nl)).

(** The description with its escaped newlines replaced,
    [strings.ReplaceAll(description, "\\n", "\n")]. *)
Definition unescape (description : str) : str :=
  ReplaceAll2 description 92 110 [nl].

(** The status column of [ListEvents] (lines 207-211). *)
Definition eventStatus (description : str) : str :=
  let hosts := getExecutedHosts description in
  if (0 <? length hosts)%nat
  then lit "Executed (" ++ Join hosts (lit ", ") ++ lit ")"
  else lit "Pending".

(** The row [ListEvents] prints for one object of the answer, if any
    (lines 191-214): uid, command and status.  The outer [None] is a
    run-time panic: [cal.Events()[0]] on data without a VEVENT, or [.Value]
    on a SUMMARY, DESCRIPTION or UID the VEVENT does not have (all three are
    read before the prefix is tested). *)
Definition listRow (eventData : RawObject) : option (option (str * str * str)) :=
  match rawData eventData with
  | None => Some None
  | Some [] => None
  | Some (vevent :: _) =>
      match rawSummary vevent, rawDescription vevent, rawUID vevent with
      | Some summary, Some description, Some uid =>
          let description := unescape description in
          if HasPrefix summary (lit "Meeting from nobody:") then
            Some (Some (uid,
                        TrimPrefix summary (lit "Meeting from nobody: "),
                        eventStatus description))
          else Some None
      | _, _, _ => None
      end
  end.

(** [ListEvents] on the events of the answer: the rows printed, in order,
    and whether the loop came to its end ([false]: it stopped at a panic,
    after the rows already printed). *)
Fixpoint ListEvents (events : list RawObject) : list (str * str * str) * bool :=
  match events with
  | [] => ([], true)
  | eventData :: rest =>
      match listRow eventData with
      | None => ([], false)
      | Some row =>
          let '(rows, finished) := ListEvents rest in
          (option_list row ++ rows, finished)
      end
  end.

(** The body of the loop of [ClearExecutedEvents] (lines 285-307): the paths
    removed so far, oldest first, and [count].  [RemoveAll path] tells
    whether the store removed the object.  [None] is the run-time panic of
    [.Value] on a DESCRIPTION the VEVENT does not have. *)
Definition clearEvent (RemoveAll : str -> bool) (acc : list str * nat) (event : RawObject)
  : option (list str * nat) :=
  let '(removed, count) := acc in
  match rawData event with
  | None | Some [] => Some acc
  | Some (vevent :: _) =>
      match rawDescription vevent with
      | None => None
      | Some description =>
          let description := unescape description in
          let hosts := getExecutedHosts description in
          if (0 <? length hosts)%nat then
            if RemoveAll (rawPath event)
            then Some (removed ++ [rawPath event], S count)
            else Some acc
          else Some acc
      end
  end.

(** The loop of [ClearExecutedEvents]: the paths removed, and the count
    reported at the end, or [None] when the loop stopped at a panic (what
    was removed before stays removed). *)
Fixpoint clearEvents (RemoveAll : str -> bool) (acc : list str * nat)
    (events : list RawObject) : list str * option nat :=
  match events with
  | [] => (acc.1, Some acc.2)
  | event :: rest =>
      match clearEvent RemoveAll acc event with
      | None => (acc.1, None)
      | Some acc' => clearEvents RemoveAll acc' rest
      end
  end.

(** [ClearExecutedEvents] on the events of the answer. *)
Definition ClearExecutedEvents (RemoveAll : str -> bool) (events : list RawObject)
  : list str * option nat :=
  clearEvents RemoveAll ([], 0%nat) events.

(** ** The text values of the calendar library *)

(** [Props.SetText] of go-ical, by which the guest stores the new
    description (line 263 of [guest.go]) and the organizer the summary
    (line 147): the raw value of a text has a backslash before each
    backslash, semicolon and comma, and backslash, [n] for each newline.
    The organizer reads this raw value ([.Value]) and undoes the newlines
    only ([unescape]). *)
Definition SetText (text : str) : str :=
  flat_map (fun c : rune =>
              if c =? 92 then [92; 92]
              else if c =? 10 then [92; 110]
              else if c =? 59 then [92; 59]
              else if c =? 44 then [92; 44]
              else [c]) text.

(** A text with a backslash before each semicolon and comma. *)
Definition escapePunct (text : str) : str :=
  flat_map (fun c : rune => if (c =? 59) || (c =? 44) then [92; c] else [c]) text.

(** ** The codecs in the words of the specification *)

(** The addressing mode of a command. *)
Inductive TargetSpec :=
  | Broadcast
  | Wildcard
  | Host (name : str).

(** The target a [targetHost] of the guest stands for: no annotation (or an
    empty name) is a broadcast, [*] the wildcard, any other name a host. *)
Definition targetSpec (targetHost : str) : TargetSpec :=
  if bool_decide (targetHost = []) then Broadcast
  else if bool_decide (targetHost = lit "*") then Wildcard
  else Host targetHost.

(** The [targetHost] that stands for a target. *)
Definition targetName (t : TargetSpec) : str :=
  match t with
  | Broadcast => []
  | Wildcard => lit "*"
  | Host name => name
  end.

(** The decoded form of a summary. *)
Record CommandRecord := {
  targetHost : str;
  actualCmd : str;
  command : str;
  args : str;
}.

(** The decoding steps of [CheckAndExecute] (lines 152 and 161-184) without
    the two tests that depend on the local host. *)
Definition Decode (summary : str) : option CommandRecord :=
  let prefix := lit "Meeting from nobody:" in
  if negb (HasPrefix summary prefix) then None
  else
    let commandLine := TrimSpace (TrimPrefix summary prefix) in
    let '(targetHost, actualCmd) :=
      if HasPrefix commandLine (lit "@") then
        match SplitN2 commandLine 58 with
        | [part0; part1] => (TrimPrefix part0 (lit "@"), part1)
        | _ => ([], commandLine)
        end
      else ([], commandLine) in
    Some {| targetHost := targetHost;
            actualCmd := actualCmd;
            command := fst (splitCommand actualCmd);
            args := snd (splitCommand actualCmd) |}.

(** The test of line 171, negated: the local host acts on the entry. *)
Definition ShouldExecute (targetHost localHost : str) : bool :=
  negb (bool_decide (targetHost <> []) && bool_decide (targetHost <> localHost)
        && bool_decide (targetHost <> lit "*")).

(** [HasBlock]: the test of line 156. *)
Definition HasBlock (description host : str) : bool :=
  Contains description (startMarker host).

(** The annotation of a target as the console help gives it ([exec
    @host:<cmd>], [exec @*:<cmd>], lines 83-84 of the organizer): no
    function of the sources writes it, the operator types it. *)
Definition annotation (t : TargetSpec) : str :=
  match t with
  | Broadcast => []
  | Wildcard => lit "@*:"
  | Host name => lit "@" ++ name ++ lit ":"
  end.

(** The command text of [Encode]: the annotation followed by the command
    and its arguments separated by single spaces, as the console builds it
    from the words of the line ([strings.Join(parts[1:], " ")], line 109). *)
Definition commandText (command : str) (args : list str) (t : TargetSpec) : str :=
  annotation t ++ Join (command :: args) (lit " ").

(** [Encode]: the summary [CreateCommand] writes for that command text
    (line 147). *)
Definition Encode (command : str) (args : list str) (t : TargetSpec) : str :=
  lit "Meeting from nobody: " ++ commandText command args t.

(** The two states of the scan of [ExtractAll]. *)
Inductive Scan :=
  | Idle
  | Capturing (host body : str).

(** What a line is to the scan, read off its trimmed text. *)
Inductive LineKind :=
  | StartLine (host : str)
  | EndLine
  | PlainLine.

Definition lineKind (line : str) : LineKind :=
  let t := TrimSpace line in
  if HasPrefix t (lit "[OUTPUT-")
  then StartLine (TrimSuffix (TrimPrefix t (lit "[OUTPUT-")) (lit "]"))
  else if HasPrefix t (lit "[/OUTPUT-") then EndLine
  else PlainLine.

(** A line appended to a body, after a newline when the body is not empty. *)
Definition appendLine (body line : str) : str :=
  match body with
  | [] => line
  | _ :: _ => body ++ [nl] ++ line
  end.

(** One step of the two-state machine: a start line enters [Capturing] with
    an empty body; an end line, whatever name it carries, commits the body
    under the captured host (unless that name is empty) and returns to
    [Idle]; any other line is appended while capturing and ignored while
    idle. *)
Definition machineStep (st : gmap str str * Scan) (line : str) : gmap str str * Scan :=
  let '(committed, scan) := st in
  match lineKind line, scan with
  | StartLine host, _ => (committed, Capturing host [])
  | EndLine, Capturing host body =>
      (if bool_decide (host = []) then committed else <[host := body]> committed, Idle)
  | EndLine, Idle => (committed, Idle)
  | PlainLine, Capturing host body => (committed, Capturing host (appendLine body line))
  | PlainLine, Idle => (committed, Idle)
  end.

(** [ExtractAll] as the two-state machine run over the lines. *)
Definition ExtractAll (description : str) : gmap str str :=
  fst (foldl machineStep (∅, Idle) (Split description nl)).

(** ** Predicates used in the statements *)

(** A token: a non-empty string without white space. *)
Definition Token (t : str) : Prop :=
  t <> [] /\ Forall (fun c => IsSpace c = false) t.

(** The targets whose annotation reads back as written: a broadcast needs
    a command that does not itself begin with [@]; a host name is not
    empty, is not [*] and holds no colon. *)
Definition TargetOk (cmd : str) (t : TargetSpec) : Prop :=
  match t with
  | Broadcast => HasPrefix cmd (lit "@") = false
  | Wildcard => True
  | Host name => name <> [] /\ name <> lit "*" /\ (58 : N) ∉ name
  end.


(** The round trip as the specification states it: decoding the encoded
    summary gives back the target, the command and the arguments. *)
Definition RoundTrip (cmd : str) (argv : list str) (t : TargetSpec) : Prop :=
  exists r, Decode (Encode cmd argv t) = Some r
    /\ targetSpec (targetHost r) = t
    /\ command r = cmd
    /\ args r = Join argv (lit " ").


(** C2 as the specification states it: a body is committed under a host
    only by an end marker that carries the name of that host. *)
Definition CommitsOnlyOnMatchingEnd (description : str) : Prop :=
  forall host body,
    extractHostOutputs description !! host = Some body ->
    exists line, line ∈ Split description nl /\ TrimSpace line = endMarker host.

(** The variables of the loop of [extractHostOutputs] stand for a state of
    the two-state machine. *)
Definition represents (v : ScanVars) (st : gmap str str * Scan) : Prop :=
  outputs v = st.1 /\
  match st.2 with
  | Idle => capturing v = false
  | Capturing host body =>
      capturing v = true /\ currentHost v = host /\ output v = body
  end.


(** The test of line 316: the line is a start marker on its own. *)
Definition isStartMarker (line : str) : bool :=
  HasPrefix line (lit "[OUTPUT-") && HasSuffix line (lit "]").

(** The host name a start marker line carries (lines 317-318). *)
Definition markerHost (line : str) : str :=
  TrimSuffix (TrimPrefix line (lit "[OUTPUT-")) (lit "]").


(** The command line of a summary: what follows the prefix, trimmed
    (line 161). *)
Definition commandLineOf (summary : str) : str :=
  TrimSpace (TrimPrefix summary (lit "Meeting from nobody:")).

(** C8 as the specification states it: [upload] reads the file named by the
    first argument and answers with its content in base64 between the
    [DATA] markers, or with the error of that read. *)
Definition UploadReadsFirstArgument (g : Guest) (os : OS) (argv : list str) : Prop :=
  match argv with
  | [] => True
  | first :: _ =>
      ExecuteCommand g os (lit "upload") (Join argv (lit " ")) =
        lit "[Host: " ++ hostname g ++ lit "]" ++ [nl] ++
        match ReadFile os first with
        | inl data =>
            lit "File: " ++ first ++ [nl] ++ lit "[DATA]" ++ [nl]
              ++ base64.EncodeToString data ++ [nl] ++ lit "[/DATA]"
        | inr err => lit "Error: " ++ err
        end
  end.

(** A file system with the single file [a], holding the bytes of [Man]. *)
Definition oneFileOS : OS :=
  {| Getenv := fun _ => [];
     Getwd := lit "/";
     ReadFile := fun path =>
       if bool_decide (path = lit "a") then inl (lit "Man")
       else inr (lit "open " ++ path ++ lit ": no such file or directory");
     GOOS := lit "linux";
     GOARCH := lit "amd64";
     CombinedOutput := fun _ _ => ([], None) |}.


(** The object the store answers for a path ([GetCalendarObject], or the
    entry of a query's answer). *)
Definition fetch (st : gmap str (option (list Component))) (path : str) : CalendarObject :=
  {| Path := path;
     Data := match st !! path with Some data => data | None => None end |}.

(** The description of the first child of the object stored at a path. *)
Definition descriptionAt (st : gmap str (option (list Component))) (path : str)
  : option str :=
  match st !! path with
  | Some (Some (vevent :: _)) => Some (Description vevent)
  | _ => None
  end.

(** The setting of the scenarios: two guests, a Linux host for each, and
    the world after the organizer created one command. *)
Definition guest1 : Guest := NewGuest (lit "calendars/admin/personal/") (lit "h1").
Definition guest2 : Guest := NewGuest (lit "calendars/admin/personal/") (lit "h2").
Definition scenarioPath : str := lit "/cal/u1.ics".

Definition linuxOS : OS :=
  {| Getenv := fun name => if bool_decide (name = lit "USER") then lit "root" else [];
     Getwd := lit "/srv";
     ReadFile := fun _ => inr (lit "no such file or directory");
     GOOS := lit "linux";
     GOARCH := lit "amd64";
     CombinedOutput := fun _ _ => ([], None) |}.

(** A server that answers every fetch and accepts every put. *)
Definition acceptingServer : Server :=
  {| fetchFails := fun _ => false; putAccepted := fun _ _ => true |}.

Definition created (path command : str) : World :=
  let e := CreateCommand path (lit "u1") command in
  {| store := {[ Path e := Data e ]}; executed := [] |}.


(** A string without its leading newlines. *)
Fixpoint dropNewlines (s : str) : str :=
  match s with
  | [] => []
  | c :: s' => if c =? nl then dropNewlines s' else s
  end.


(** The objects [clear] removes: those with a VEVENT whose unescaped
    description holds a start marker line, and that the store removes. *)
Definition cleared (RemoveAll : str -> bool) (event : RawObject) : Prop :=
  exists vevent others description,
    rawData event = Some (vevent :: others)
    /\ rawDescription vevent = Some description
    /\ getExecutedHosts (unescape description) <> []
    /\ RemoveAll (rawPath event) = true.

(** The objects at which [clear] stops with a panic: those whose first
    VEVENT has no DESCRIPTION. *)
Definition clearPanics (event : RawObject) : Prop :=
  exists vevent others,
    rawData event = Some (vevent :: others) /\ rawDescription vevent = None.

(** The objects [list] prints a row for, and the row. *)
Definition listed (event : RawObject) (row : str * str * str) : Prop :=
  exists vevent others summary description uid,
    rawData event = Some (vevent :: others)
    /\ rawSummary vevent = Some summary
    /\ rawDescription vevent = Some description
    /\ rawUID vevent = Some uid
    /\ HasPrefix summary (lit "Meeting from nobody:") = true
    /\ row = (uid,
              TrimPrefix summary (lit "Meeting from nobody: "),
              eventStatus (unescape description)).

(** The objects at which [list] stops with a panic: data without a VEVENT,
    or a first VEVENT without SUMMARY, DESCRIPTION or UID. *)
Definition listPanics (event : RawObject) : Prop :=
  rawData event = Some []
  \/ exists vevent others,
       rawData event = Some (vevent :: others)
       /\ (rawSummary vevent = None \/ rawDescription vevent = None
           \/ rawUID vevent = None).

(** A block in a sequence of lines: a start line of the host, lines that
    are no markers, an end line; the body is those lines, appended. *)
Definition blockIn (lines : list str) (host body : str) : Prop :=
  exists pre s mid e post,
    lines = pre ++ [s] ++ mid ++ [e] ++ post
    /\ lineKind s = StartLine host
    /\ Forall (fun line => lineKind line = PlainLine) mid
    /\ lineKind e = EndLine
    /\ body = foldl appendLine [] mid.

(** A block that is still open at the end of the lines. *)
Definition openBlock (lines : list str) (host body : str) : Prop :=
  exists pre s mid,
    lines = pre ++ [s] ++ mid
    /\ lineKind s = StartLine host
    /\ Forall (fun line => lineKind line = PlainLine) mid
    /\ body = foldl appendLine [] mid.


(** An object after a guest touched it: the same, or the same but for the
    description of its first child, which grew at its end. *)
Definition extendsObject (old new : option (list Component)) : Prop :=
  match old, new with
  | Some (vevent :: others), Some (vevent' :: others') =>
      others' = others
      /\ Summary vevent' = Summary vevent
      /\ UID vevent' = UID vevent
      /\ exists suffix, Description vevent' = Description vevent ++ suffix
  | _, _ => new = old
  end.

(** A store after a guest worked on it: the same paths, each object
    extended. *)
Definition appendOnly (st st' : gmap str (option (list Component))) : Prop :=
  forall path,
    match st !! path, st' !! path with
    | None, None => True
    | Some old, Some new => extendsObject old new
    | _, _ => False
    end.

(** An object the guest has nothing left to do with: processing it executes
    nothing. *)
Definition settled (g : Guest) (object : option (option (list Component))) : Prop :=
  match object with
  | Some (Some (vevent :: _)) =>
      match Summary vevent with
      | Some summary => eventAction g summary (Description vevent) = None
      | None => True
      end
  | _ => True
  end.


(** What [GetEventOutput] prints for the answer to its query by UID
    (lines 233-267 of the organizer): an error for a failed query, [Event
    not found] for an empty answer, [Failed to parse event data] for data
    without a VEVENT, else the summary and either [Command not yet executed
    by any host] or, for each host of [extractHostOutputs], its output
    trimmed (in the order of a Go map, which is not fixed).  [NilData] is the
    run-time panic of [cal.Events()] on [nil] data, [MissingProperty] that
    of [.Value] on a SUMMARY or DESCRIPTION the VEVENT does not have. *)
Inductive GetResult :=
  | QueryFailed
  | EventNotFound
  | NilData
  | ParseFailed
  | MissingProperty
  | NotExecuted (summary : str)
  | Outputs (summary : str) (shown : gmap str str).

(** [GetEventOutput] on the answer of the store; only the first object of
    the answer is looked at. *)
Definition GetEventOutput (answer : option (list RawObject)) : GetResult :=
  match answer with
  | None => QueryFailed
  | Some [] => EventNotFound
  | Some (event :: _) =>
      match rawData event with
      | None => NilData
      | Some [] => ParseFailed
      | Some (vevent :: _) =>
          match rawSummary vevent, rawDescription vevent with
          | Some summary, Some description =>
              let description := unescape description in
              let outputs := extractHostOutputs description in
              if (size outputs =? 0)%nat then NotExecuted summary
              else Outputs summary (TrimSpace <$> outputs)
          | _, _ => MissingProperty
          end
      end
  end.


(** C5 as the specification states it: the targeting test lets every host
    act on a broadcast and on the wildcard, and on a command addressed to
    [Host name] exactly when [name] is the name of the local host. *)
Definition TargetingAsStated (t : TargetSpec) (localHost : str) : Prop :=
  ShouldExecute (targetName t) localHost =
    match t with
    | Broadcast | Wildcard => true
    | Host name => bool_decide (name = localHost)
    end.

(** The targets whose annotation the guest reads back as written: a
    broadcast whose command text does not itself begin with [@], the
    wildcard, and a host name without a colon. *)
Definition Annotated (t : TargetSpec) (text : str) : Prop :=
  match t with
  | Broadcast => HasPrefix (TrimSpace text) (lit "@") = false
  | Wildcard => True
  | Host name => (58 : N) ∉ name
  end.


(** * Properties *)

(** ** Facts about the string functions *)

Section StringFacts.

Implicit Types (s p x t : str) (c : rune).

Lemma HasPrefix_app p x : HasPrefix (p ++ x) p = true.
Proof.
  induction p as [|a p IH]; simpl; [done|].
  by rewrite N.eqb_refl, IH.
Qed.

Lemma HasPrefix_inv s p : HasPrefix s p = true -> s = p ++ drop (length p) s.
Proof.
  revert s. induction p as [|a p IH]; intros s H; simpl in *.
  - by rewrite drop_0.
  - destruct s as [|b s]; [done|].
    apply andb_true_iff in H as [Hab Hp].
    apply N.eqb_eq in Hab as ->. simpl. f_equal. by apply IH.
Qed.

Lemma HasPrefix_true s p : HasPrefix s p = true <-> exists x, s = p ++ x.
Proof.
  split.
  - intros H. eexists. by apply HasPrefix_inv.
  - intros [x ->]. apply HasPrefix_app.
Qed.

Lemma TrimPrefix_app p x : TrimPrefix (p ++ x) p = x.
Proof.
  unfold TrimPrefix. rewrite HasPrefix_app. by rewrite drop_app_length.
Qed.

Lemma TrimPrefix_inv s p : HasPrefix s p = true -> s = p ++ TrimPrefix s p.
Proof.
  intros H. unfold TrimPrefix. rewrite H. by apply HasPrefix_inv.
Qed.

Lemma HasSuffix_app x p : HasSuffix (x ++ p) p = true.
Proof.
  unfold HasSuffix. rewrite reverse_app. apply HasPrefix_app.
Qed.

Lemma HasSuffix_true s p : HasSuffix s p = true <-> exists x, s = x ++ p.
Proof.
  unfold HasSuffix. rewrite HasPrefix_true. split.
  - intros [y Hy]. exists (reverse y).
    apply (f_equal reverse) in Hy.
    by rewrite reverse_involutive, reverse_app, reverse_involutive in Hy.
  - intros [x ->]. exists (reverse x). by rewrite reverse_app.
Qed.

Lemma TrimSuffix_app x p : TrimSuffix (x ++ p) p = x.
Proof.
  unfold TrimSuffix. rewrite HasSuffix_app, length_app.
  replace (length x + length p - length p)%nat with (length x) by lia.
  by rewrite take_app_length.
Qed.

Lemma Contains_here s p : HasPrefix s p = true -> Contains s p = true.
Proof. destruct s; simpl; intros ->; done. Qed.

Lemma Contains_app x p t : Contains (x ++ p ++ t) p = true.
Proof.
  induction x as [|a x IH]; simpl.
  - apply Contains_here, HasPrefix_app.
  - rewrite IH. apply orb_true_r.
Qed.

Lemma Contains_true s p : Contains s p = true <-> exists x t, s = x ++ p ++ t.
Proof.
  split.
  - induction s as [|a s IH]; simpl; intros H.
    + rewrite orb_false_r in H. apply HasPrefix_true in H as [t Ht].
      by exists [], t.
    + apply orb_true_iff in H as [H|H].
      * apply HasPrefix_true in H as [t Ht]. by exists [], t.
      * destruct (IH H) as (x & t & ->). by exists (a :: x), t.
  - intros (x & t & ->). apply Contains_app.
Qed.

End StringFacts.

Section TrimFacts.

Implicit Types (s a b t : str) (c d : rune).

Lemma trimRight_nospace t :
  Forall (fun c => IsSpace c = false) t -> trimRight t = t.
Proof.
  induction 1 as [|c t Hc _ IH]; simpl; [done|].
  rewrite IH. destruct t; [by rewrite Hc | done].
Qed.

Lemma trimRight_app_fix a b :
  b <> [] -> trimRight b = b -> trimRight (a ++ b) = a ++ b.
Proof.
  intros Hb Hfix. induction a as [|c a IH]; simpl; [done|].
  rewrite IH. destruct (a ++ b) eqn:E; [|done].
  apply app_eq_nil in E as [_ ->]. done.
Qed.

Lemma trimRight_spaces a b :
  Forall (fun c => IsSpace c = true) b -> trimRight (a ++ b) = trimRight a.
Proof.
  intros Hb. induction a as [|c a IH]; simpl.
  - induction Hb as [|d b Hd _ IHb]; simpl; [done|]. by rewrite IHb, Hd.
  - by rewrite IH.
Qed.

Lemma Token_trimRight t : Token t -> trimRight t = t.
Proof. intros [_ H]. by apply trimRight_nospace. Qed.

Lemma Token_head t : Token t -> exists c t', t = c :: t' /\ IsSpace c = false.
Proof.
  intros [Hne H]. destruct t as [|c t']; [done|].
  exists c, t'. split; [done|]. by inversion H.
Qed.

Lemma Join_cons2 (e e2 : str) (rest : list str) (sep : str) :
  Join (e :: e2 :: rest) sep = e ++ sep ++ Join (e2 :: rest) sep.
Proof. reflexivity. Qed.

Lemma Join_tokens_trimRight (toks : list str) (sep : str) :
  Forall Token toks -> toks <> [] ->
  Join toks sep <> [] /\ trimRight (Join toks sep) = Join toks sep.
Proof.
  induction 1 as [|e rest He Hrest IH]; intros Hne; [done|].
  destruct rest as [|e2 rest].
  - simpl. split; [apply He | by apply Token_trimRight].
  - rewrite Join_cons2. destruct IH as [IH1 IH2]; [done|]. split.
    + destruct He as [He _]. destruct e; [done|]. done.
    + rewrite (app_assoc e sep). by apply trimRight_app_fix.
Qed.

Lemma Fields_cons_space c s : IsSpace c = true -> Fields (c :: s) = Fields s.
Proof. intros H. simpl. by rewrite H. Qed.

Lemma Fields_cons_cons c d s :
  IsSpace c = false -> IsSpace d = false ->
  Fields (c :: d :: s) =
    match Fields (d :: s) with f :: fs => (c :: f) :: fs | [] => [[c]] end.
Proof.
  intros Hc Hd. change (Fields (c :: d :: s)) with
    (if IsSpace c then Fields (d :: s)
     else if IsSpace d then [c] :: Fields (d :: s)
          else match Fields (d :: s) with f :: fs => (c :: f) :: fs | [] => [[c]] end).
  by rewrite Hc, Hd.
Qed.

Lemma Fields_token_sp t d s :
  Token t -> IsSpace d = true -> Fields (t ++ d :: s) = t :: Fields s.
Proof.
  intros [Hne Hall] Hd. induction Hall as [|c t Hc Hall IH]; [done|].
  destruct t as [|c2 t].
  - simpl. by rewrite Hc, Hd.
  - inversion Hall as [|? ? Hc2 _]; subst.
    change ((c :: c2 :: t) ++ d :: s) with (c :: c2 :: (t ++ d :: s)).
    rewrite Fields_cons_cons by done.
    change (c2 :: (t ++ d :: s)) with ((c2 :: t) ++ d :: s).
    by rewrite IH.
Qed.

Lemma Fields_token t : Token t -> Fields t = [t].
Proof.
  intros [Hne Hall]. induction Hall as [|c t Hc Hall IH]; [done|].
  destruct t as [|c2 t].
  - simpl. by rewrite Hc.
  - inversion Hall as [|? ? Hc2 _]; subst.
    rewrite Fields_cons_cons by done. by rewrite IH.
Qed.

Lemma Fields_Join (toks : list str) :
  Forall Token toks -> Fields (Join toks [32]) = toks.
Proof.
  induction 1 as [|e rest He Hrest IH]; [done|].
  destruct rest as [|e2 rest].
  - simpl. by apply Fields_token.
  - rewrite Join_cons2.
    change (e ++ [32] ++ Join (e2 :: rest) [32])
      with (e ++ 32 :: Join (e2 :: rest) [32]).
    rewrite Fields_token_sp by done. by rewrite IH.
Qed.

Lemma Fields_trailing_spaces a b :
  Forall (fun c => IsSpace c = true) b -> Fields (a ++ b) = Fields a.
Proof.
  intros Hb.
  assert (Hnil : Fields b = []).
  { induction Hb as [|d b Hd _ IHb]; [done|]. by rewrite Fields_cons_space. }
  induction a as [|c a IH]; [done|].
  destruct (IsSpace c) eqn:Hc.
  - simpl app. by rewrite !Fields_cons_space.
  - destruct a as [|c2 a].
    + simpl app. destruct Hb as [|d b Hd Hb].
      * done.
      * simpl. rewrite Hc, Hd. rewrite Fields_cons_space in Hnil by done.
        by rewrite Hnil.
    + destruct (IsSpace c2) eqn:Hc2.
      * simpl in IH |- *. rewrite Hc, Hc2 in *. by rewrite IH.
      * change ((c :: c2 :: a) ++ b) with (c :: c2 :: (a ++ b)).
        rewrite !Fields_cons_cons by done.
        change (c2 :: (a ++ b)) with ((c2 :: a) ++ b). by rewrite IH.
Qed.

Lemma Fields_Token s : Forall Token (Fields s).
Proof.
  induction s as [|c s IH]; [constructor|].
  destruct (IsSpace c) eqn:Hc; [by rewrite Fields_cons_space|].
  assert (Hone : Token [c]) by (split; [done | by repeat constructor]).
  destruct s as [|d s]; [simpl; rewrite Hc; by repeat constructor|].
  destruct (IsSpace d) eqn:Hd.
  - simpl in IH |- *. rewrite Hc, Hd in *. by constructor.
  - rewrite Fields_cons_cons by done.
    destruct (Fields (d :: s)) as [|f fs]; [by repeat constructor|].
    inversion IH as [|? ? [Hf1 Hf2] Hfs]; subst.
    constructor; [|done]. split; [done | by constructor].
Qed.

(** The command the console hands to [CreateCommand] is made of tokens
    separated by single spaces. *)
Lemma execCommand_tokens (input cmd : str) :
  execCommand input = Some cmd ->
  exists word argv,
    Token word /\ Forall Token argv /\ cmd = Join (word :: argv) (lit " ").
Proof.
  unfold execCommand. pose proof (Fields_Token input) as Htok.
  destruct (Fields input) as [|part0 [|word argv]]; try done.
  case_bool_decide; [|done]. intros [= <-].
  inversion Htok as [|? ? _ Hrest]; subst. inversion Hrest; subst.
  by exists word, argv.
Qed.

Lemma cut_app (a b : str) (sep : rune) :
  sep ∉ a -> cut (a ++ sep :: b) sep = Some (a, b).
Proof.
  induction a as [|c a IH]; intros Hni; simpl.
  - by rewrite N.eqb_refl.
  - apply not_elem_of_cons in Hni as [Hne Hni].
    destruct (N.eqb_spec c sep) as [->|_]; [done|]. by rewrite IH.
Qed.

Lemma cut_None (s : str) (sep : rune) : sep ∉ s -> cut s sep = None.
Proof.
  induction s as [|c s IH]; intros Hni; simpl; [done|].
  apply not_elem_of_cons in Hni as [Hne Hni].
  destruct (N.eqb_spec c sep) as [->|_]; [done|]. by rewrite IH.
Qed.

Lemma SplitN2_app (a b : str) (sep : rune) :
  sep ∉ a -> SplitN2 (a ++ sep :: b) sep = [a; b].
Proof. intros H. unfold SplitN2. by rewrite cut_app. Qed.

Lemma SplitN2_None (s : str) (sep : rune) : sep ∉ s -> SplitN2 s sep = [s].
Proof. intros H. unfold SplitN2. by rewrite cut_None. Qed.

End TrimFacts.

(** ** The dispatcher's loop body, factored *)

(** The loop body of [CheckAndExecute] is the decoding, the test for a block
    of the local host and the targeting test, in that order. *)
Lemma eventAction_Decode (cal h summary description : str) :
  eventAction (NewGuest cal h) summary description =
    match Decode summary with
    | None => None
    | Some r =>
        if HasBlock description h then None
        else if ShouldExecute (targetHost r) h then Some (command r, args r)
        else None
    end.
Proof.
  unfold eventAction, Decode, HasBlock, ShouldExecute.
  change (commandPrefix (NewGuest cal h)) with (lit "Meeting from nobody:").
  change (hostname (NewGuest cal h)) with h.
  destruct (HasPrefix summary (lit "Meeting from nobody:")); cbn [negb]; [|done].
  set (commandLine := TrimSpace _).
  destruct (HasPrefix commandLine (lit "@")).
  - destruct (SplitN2 commandLine 58) as [|p0 [|p1 [|]]];
      cbn [targetHost command args fst snd];
      destruct (Contains description (startMarker h)); try done;
      try (by destruct (splitCommand commandLine)).
    case_match; [done|]. by destruct (splitCommand p1).
  - cbn [targetHost command args fst snd].
    destruct (Contains description (startMarker h)); [done|].
    by destruct (splitCommand commandLine).
Qed.

(** ** C1: the round trip of the command codec *)

Lemma splitCommand_Join (cmd : str) (argv : list str) :
  Token cmd -> Forall Token argv ->
  splitCommand (Join (cmd :: argv) [32]) = (cmd, Join argv [32]).
Proof.
  intros Hc Ha. unfold splitCommand.
  rewrite Fields_Join by by constructor.
  by destruct argv.
Qed.

Lemma trimLeft_Join (cmd : str) (argv : list str) :
  Token cmd -> trimLeft (Join (cmd :: argv) [32]) = Join (cmd :: argv) [32].
Proof.
  intros Hc. destruct (Token_head _ Hc) as (c & t' & -> & Hsp).
  destruct argv; simpl; by rewrite Hsp.
Qed.

Lemma HasPrefix_Join (cmd : str) (argv : list str) (c : rune) :
  cmd <> [] -> HasPrefix (Join (cmd :: argv) [32]) [c] = HasPrefix cmd [c].
Proof. intros Hne. destruct cmd; [done|]. by destruct argv. Qed.

(** C1 (amended).  For a command that is a token, arguments that are
    tokens and a target whose annotation reads back as written
    ([TargetOk]), decoding the summary that [Encode] writes yields the
    command, the arguments joined by single spaces, and the target. *)
Theorem Decode_Encode_tokens (cmd : str) (argv : list str) (t : TargetSpec) :
  Token cmd -> Forall Token argv -> TargetOk cmd t ->
  Decode (Encode cmd argv t) =
    Some {| targetHost := targetName t;
            actualCmd := Join (cmd :: argv) (lit " ");
            command := cmd;
            args := Join argv (lit " ") |}
  /\ targetSpec (targetName t) = t.
Proof.
  intros Hc Ha Ht. unfold Encode, commandText.
  change (lit " ") with [32 : N].
  destruct (Join_tokens_trimRight (cmd :: argv) [32]) as [Hne Hfix];
    [by constructor | done |].
  pose proof (trimLeft_Join cmd argv Hc) as Hleft.
  pose proof (splitCommand_Join cmd argv Hc Ha) as Hsplit.
  set (J := Join (cmd :: argv) [32]) in *.
  assert (Hline : forall a, (exists c a', a ++ J = c :: a' /\ IsSpace c = false) ->
    TrimSpace (TrimPrefix (lit "Meeting from nobody: " ++ a ++ J)
                          (lit "Meeting from nobody:")) = a ++ J).
  { intros a (c & a' & Ea & Hsp).
    change (lit "Meeting from nobody: ") with (lit "Meeting from nobody:" ++ [32]).
    rewrite <- app_assoc, TrimPrefix_app. unfold TrimSpace. simpl.
    rewrite Ea. simpl. rewrite Hsp, <- Ea. by apply trimRight_app_fix. }
  assert (Hpre : forall a, HasPrefix (lit "Meeting from nobody: " ++ a ++ J)
                             (lit "Meeting from nobody:") = true).
  { intros a.
    change (lit "Meeting from nobody: ") with (lit "Meeting from nobody:" ++ [32]).
    rewrite <- app_assoc. apply HasPrefix_app. }
  unfold Decode. rewrite Hpre. simpl negb. cbv iota.
  destruct t as [| |name]; cbn [annotation targetName].
  - rewrite (Hline []).
    + simpl app. change (lit "@") with [64 : N].
      unfold J at 1. rewrite HasPrefix_Join by apply Hc.
      unfold TargetOk in Ht. change (lit "@") with [64 : N] in Ht. rewrite Ht.
      cbv beta iota zeta. rewrite Hsplit. done.
    + simpl app. destruct (Token_head _ Hc) as (c & t' & -> & Hsp).
      exists c. unfold J. destruct argv; simpl; eauto.
  - rewrite (Hline (lit "@*:")).
    + change (lit "@*:" ++ J) with ([64; 42] ++ 58 :: J).
      change (HasPrefix ([64; 42] ++ 58 :: J) (lit "@")) with true.
      rewrite SplitN2_app by (rewrite !not_elem_of_cons, elem_of_nil; lia).
      cbv beta iota zeta. rewrite Hsplit. done.
    + by exists 64, ([42; 58] ++ J).
  - destruct Ht as (Hn1 & Hn2 & Hn3).
    rewrite (Hline (lit "@" ++ name ++ lit ":")).
    + replace ((lit "@" ++ name ++ lit ":") ++ J) with ((64 :: name) ++ 58 :: J)
        by (by rewrite <- !app_assoc).
      change (HasPrefix ((64 :: name) ++ 58 :: J) (lit "@")) with true.
      rewrite SplitN2_app by (rewrite not_elem_of_cons; split; [lia | done]).
      cbv beta iota zeta.
      change (64 :: name) with (lit "@" ++ name). rewrite TrimPrefix_app.
      rewrite Hsplit. split; [done|].
      unfold targetSpec. by rewrite !bool_decide_eq_false_2.
    + exists 64, (name ++ lit ":" ++ J). split; [|done].
      by rewrite <- !app_assoc.
Qed.

Lemma Decode_Encode_tokens_witness :
  Decode (Encode (lit "ls") [lit "-la"; lit "/tmp"] (Host (lit "h1"))) =
    Some {| targetHost := lit "h1";
            actualCmd := lit "ls -la /tmp";
            command := lit "ls";
            args := lit "-la /tmp" |}
  /\ targetSpec (lit "h1") = Host (lit "h1").
Proof.
  apply (Decode_Encode_tokens (lit "ls") [lit "-la"; lit "/tmp"] (Host (lit "h1"))).
  - split; [done | by repeat constructor].
  - repeat constructor; done.
  - split; [done|]. split; [done|].
    intros H. apply list_elem_of_In in H. vm_compute in H.
    destruct H as [H|[H|[]]]; discriminate.
Defined.

(** C1 as stated fails: a command string holding a space comes back split
    into a command and an argument; a broadcast command that begins with an
    annotation comes back addressed to a host; an empty host name comes
    back as a broadcast. *)
Lemma RoundTrip_counterexample :
  ~ RoundTrip (lit "ls -la") [] Broadcast
  /\ ~ RoundTrip (lit "@x:y") [] Broadcast
  /\ ~ RoundTrip (lit "pwd") [] (Host []).
Proof.
  repeat split; intros (r & Hd & Ht & Hc & Ha);
    vm_compute in Hd; injection Hd as <-;
    vm_compute in Ht, Hc; discriminate.
Qed.

(** ** C2: [extractHostOutputs] as a two-state machine *)

Lemma start_not_end (t : str) :
  HasPrefix t (lit "[OUTPUT-") = true -> HasPrefix t (lit "[/OUTPUT-") = false.
Proof.
  intros H. apply HasPrefix_true in H as [x ->]. reflexivity.
Qed.

Lemma appendLine_builder (body line : str) :
  (if (0 <? length body)%nat then body ++ [nl] else body) ++ line
  = appendLine body line.
Proof. destruct body; simpl; [done|]. by rewrite <- app_assoc. Qed.

Lemma scanLine_represents v st line :
  represents v st -> represents (scanLine v line) (machineStep st line).
Proof.
  destruct st as [committed scan]. intros [Hout Hscan]. simpl in Hout, Hscan.
  unfold scanLine, machineStep, lineKind.
  destruct (HasPrefix (TrimSpace line) (lit "[OUTPUT-")) eqn:Hstart.
  - rewrite (start_not_end _ Hstart). cbn [negb andb].
    split; [done|]. by cbn.
  - cbn [andb].
    destruct (HasPrefix (TrimSpace line) (lit "[/OUTPUT-")) eqn:Hend.
    + destruct scan as [|host body].
      * rewrite Hscan. by split.
      * destruct Hscan as (-> & -> & ->). cbn [andb fst snd outputs]. split; [|done].
        cbn [fst outputs]. rewrite Hout.
        by destruct host.
    + destruct scan as [|host body].
      * rewrite Hscan. by split.
      * destruct Hscan as (-> & <- & <-). split; [done|].
        cbn [snd capturing currentHost output]. repeat split.
        apply appendLine_builder.
Qed.

(** C2 (amended).  [extractHostOutputs] is the two-state machine
    [ExtractAll]: a line whose trimmed text begins with the start tag enters
    capturing for the name it carries and empties the body; an end line,
    whatever name it carries, commits the body under the captured name and
    returns to idle; any other line is appended to the body while capturing;
    an end line while idle changes nothing. *)
Theorem extractHostOutputs_machine (description : str) :
  extractHostOutputs description = ExtractAll description.
Proof.
  unfold extractHostOutputs, ExtractAll.
  set (v0 := {| outputs := ∅; currentHost := []; capturing := false; output := [] |}).
  assert (H0 : represents v0 (∅, Idle)) by (by split).
  revert H0. generalize v0 (∅ : gmap (list N) (list N), Idle).
  induction (Split description nl) as [|line lines IH]; intros v st H.
  - apply H.
  - simpl. apply IH. by apply scanLine_represents.
Qed.

(** C2 as stated fails: the end marker of another host commits the body
    captured for host [a]; and a blank line that opens a body is not kept. *)
Lemma extractHostOutputs_counterexample :
  ~ CommitsOnlyOnMatchingEnd
      (lit "[OUTPUT-a]" ++ [nl] ++ lit "x" ++ [nl] ++ lit "[/OUTPUT-b]")
  /\ extractHostOutputs
       (lit "[OUTPUT-a]" ++ [nl] ++ [nl] ++ lit "x" ++ [nl] ++ lit "[/OUTPUT-a]")
     !! lit "a" = Some (lit "x").
Proof.
  split; [|by vm_compute].
  intros H. destruct (H (lit "a") (lit "x")) as (line & Hin & Heq).
  { by vm_compute. }
  apply list_elem_of_In in Hin. vm_compute in Hin.
  destruct Hin as [<-|[<-|[<-|[]]]]; vm_compute in Heq; discriminate.
Qed.

(** ** C9: the hosts that executed, and the status column *)

Lemma isStartMarker_startMarker (host : str) :
  isStartMarker (startMarker host) = true /\ markerHost (startMarker host) = host.
Proof.
  unfold isStartMarker, markerHost, startMarker. split.
  - rewrite HasPrefix_app. rewrite app_assoc. by rewrite HasSuffix_app.
  - by rewrite TrimPrefix_app, TrimSuffix_app.
Qed.

Lemma isStartMarker_inv (line : str) :
  isStartMarker line = true -> line = startMarker (markerHost line).
Proof.
  unfold isStartMarker, markerHost, startMarker. intros H.
  apply andb_true_iff in H as [Hp Hs].
  apply HasPrefix_true in Hp as [rest ->].
  apply HasSuffix_true in Hs as [y Hy].
  rewrite TrimPrefix_app.
  destruct (decide (rest = [])) as [->|Hne].
  - rewrite app_nil_r in Hy.
    apply (f_equal reverse) in Hy. rewrite reverse_app in Hy. by vm_compute in Hy.
  - destruct (exists_last Hne) as (rest' & c & ->).
    rewrite app_assoc in Hy. apply app_inj_tail in Hy as [_ ->].
    by rewrite TrimSuffix_app.
Qed.


Lemma foldl_hosts (acc : list str) (lines : list str) :
  foldl (fun hosts line =>
           if HasPrefix line (lit "[OUTPUT-") && HasSuffix line (lit "]")
           then hosts ++ [TrimSuffix (TrimPrefix line (lit "[OUTPUT-")) (lit "]")]
           else hosts) acc lines
  = acc ++ (markerHost <$> filter (fun line => isStartMarker line = true) lines).
Proof.
  revert acc. induction lines as [|line lines IH]; intros acc; cbn [foldl].
  - by rewrite filter_nil, fmap_nil, app_nil_r.
  - rewrite IH. fold (isStartMarker line). fold (markerHost line).
    rewrite filter_cons. destruct (isStartMarker line) eqn:E.
    + rewrite decide_True by done. by rewrite fmap_cons, <- app_assoc.
    + rewrite decide_False by (by intros ?). done.
Qed.

Lemma getExecutedHosts_lines (description : str) :
  getExecutedHosts description =
    markerHost <$> filter (fun line => isStartMarker line = true) (Split description nl).
Proof. unfold getExecutedHosts. by rewrite foldl_hosts. Qed.


Lemma listRow_None (event : RawObject) : listRow event = None <-> listPanics event.
Proof.
  unfold listRow, listPanics.
  destruct (rawData event) as [[|vevent others]|] eqn:Hd.
  - split; [by left|done].
  - destruct (rawSummary vevent) as [summary|] eqn:Hs;
      [destruct (rawDescription vevent) as [description|] eqn:Hdesc;
         [destruct (rawUID vevent) as [uid|] eqn:Hu|]|].
    + split; [by case_match|].
      intros [?|(v & o & [= <- <-] & [H|[H|H]])]; congruence.
    + split; [|done]. intros _. right. exists vevent, others. by auto.
    + split; [|done]. intros _. right. exists vevent, others. by auto.
    + split; [|done]. intros _. right. exists vevent, others. by auto.
  - split; [done|]. by intros [?|(v & o & ? & _)].
Qed.

Lemma listRow_Some (event : RawObject) (row : str * str * str) :
  listRow event = Some (Some row) <-> listed event row.
Proof.
  unfold listRow, listed.
  destruct (rawData event) as [[|vevent others]|] eqn:Hd.
  - split; [done|]. by intros (v & o & s & d & u & ? & _).
  - destruct (rawSummary vevent) as [summary|] eqn:Hs;
      [destruct (rawDescription vevent) as [description|] eqn:Hdesc;
         [destruct (rawUID vevent) as [uid|] eqn:Hu|]|];
      try (split; [done|];
           intros (v & o & s & d & u & [= <- <-] & H1 & H2 & H3 & _); congruence).
    cbv zeta. destruct (HasPrefix summary _) eqn:Hp.
    + split.
      * intros [= <-]. by exists vevent, others, summary, description, uid.
      * intros (v & o & s & d & u & [= <- <-] & H1 & H2 & H3 & _ & ->).
        rewrite Hs in H1. rewrite Hdesc in H2. rewrite Hu in H3.
        by injection H1 as <-; injection H2 as <-; injection H3 as <-.
    + split; [done|].
      intros (v & o & s & d & u & [= <- <-] & H1 & _ & _ & Hp' & _).
      rewrite Hs in H1. injection H1 as <-. by rewrite Hp in Hp'.
  - split; [done|]. by intros (v & o & s & d & u & ? & _).
Qed.

Lemma ListEvents_cons (event : RawObject) (events : list RawObject) :
  ListEvents (event :: events) =
    match listRow event with
    | None => ([], false)
    | Some row => (option_list row ++ (ListEvents events).1, (ListEvents events).2)
    end.
Proof. cbn [ListEvents]. destruct (listRow event); [|done]. by destruct (ListEvents events). Qed.

(** [list] stops exactly when it meets an object that makes it panic. *)
Lemma ListEvents_stops (events : list RawObject) :
  (ListEvents events).2 = false <-> exists event, event ∈ events /\ listPanics event.
Proof.
  induction events as [|event events IH].
  - split; [done|]. by intros (? & ?%elem_of_nil & _).
  - rewrite ListEvents_cons. destruct (listRow event) as [row|] eqn:E.
    + cbn [snd]. rewrite IH. split.
      * intros (ev & Hin & Hp). exists ev. split; [by right|done].
      * intros (ev & [->|Hin]%elem_of_cons & Hp).
        -- apply listRow_None in Hp. congruence.
        -- by exists ev.
    + split; [|done]. intros _. exists event. split; [by left|].
      by apply listRow_None.
Qed.

(** Every row printed is the row of an object of the answer. *)
Lemma ListEvents_sound (events : list RawObject) (row : str * str * str) :
  row ∈ (ListEvents events).1 -> exists event, event ∈ events /\ listed event row.
Proof.
  induction events as [|event events IH].
  - by intros ?%elem_of_nil.
  - rewrite ListEvents_cons. destruct (listRow event) as [[r|]|] eqn:E; cbn [fst option_list app].
    + intros [->|Hin]%elem_of_cons.
      * exists event. split; [by left|]. by apply listRow_Some.
      * destruct (IH Hin) as (ev & Hev & Hl). exists ev. split; [by right|done].
    + intros Hin. destruct (IH Hin) as (ev & Hev & Hl). exists ev. split; [by right|done].
    + by intros ?%elem_of_nil.
Qed.

(** When [list] comes to its end, the row of every object is printed. *)
Lemma ListEvents_complete (events : list RawObject) (event : RawObject)
    (row : str * str * str) :
  (ListEvents events).2 = true -> event ∈ events -> listed event row ->
  row ∈ (ListEvents events).1.
Proof.
  induction events as [|ev events IH]; [by intros _ ?%elem_of_nil|].
  rewrite ListEvents_cons. destruct (listRow ev) as [r|] eqn:E; [|done].
  cbn [fst snd]. intros Hf [->|Hin]%elem_of_cons Hl.
  - apply listRow_Some in Hl. rewrite Hl in E. injection E as <-.
    cbn [option_list app]. by left.
  - apply elem_of_app. right. by apply IH.
Qed.



(** ** C3: what [ClearExecutedEvents] removes *)

(** The summary of an entry plays no part in the decision to remove it. *)
Lemma clearEvent_summary_irrelevant (RemoveAll : str -> bool) (acc : list str * nat)
    (path : str) (summary1 summary2 description uid : option str)
    (others : list RawEvent) :
  clearEvent RemoveAll acc
    {| rawPath := path;
       rawData := Some ({| rawSummary := summary1; rawDescription := description;
                           rawUID := uid |} :: others) |}
  = clearEvent RemoveAll acc
    {| rawPath := path;
       rawData := Some ({| rawSummary := summary2; rawDescription := description;
                           rawUID := uid |} :: others) |}.
Proof. reflexivity. Qed.

(** An entry with a VEVENT that has a description is removed exactly when
    the unescaped description has a start marker line and the store removes
    it. *)
Lemma clearEvent_removes (RemoveAll : str -> bool) (removed : list str) (count : nat)
    (path description : str) (vevent : RawEvent) (others : list RawEvent) :
  rawDescription vevent = Some description ->
  clearEvent RemoveAll (removed, count)
    {| rawPath := path; rawData := Some (vevent :: others) |}
  = match getExecutedHosts (unescape description) with
    | [] => Some (removed, count)
    | _ :: _ =>
        if RemoveAll path then Some (removed ++ [path], S count)
        else Some (removed, count)
    end.
Proof.
  intros Hd. unfold clearEvent. cbn [rawData rawPath]. rewrite Hd.
  by destruct (getExecutedHosts _).
Qed.

(** C3, the code at the failing input: an ordinary calendar entry, whose
    summary does not carry the prefix, is removed by [clear] because a line
    of its description reads as a start marker; [ListEvents] prints no row for
    the same entry. *)
Theorem ClearExecutedEvents_removes_unprefixed :
  HasPrefix (lit "Lunch with Bob") (lit "Meeting from nobody:") = false
  /\ ClearExecutedEvents (fun _ => true)
       [ {| rawPath := lit "/cal/lunch.ics";
            rawData := Some [ {| rawSummary := Some (lit "Lunch with Bob");
                                 rawDescription := Some (lit "[OUTPUT-draft]");
                                 rawUID := Some (lit "u1") |} ] |} ]
     = ([lit "/cal/lunch.ics"], Some 1%nat)
  /\ ListEvents
       [ {| rawPath := lit "/cal/lunch.ics";
            rawData := Some [ {| rawSummary := Some (lit "Lunch with Bob");
                                 rawDescription := Some (lit "[OUTPUT-draft]");
                                 rawUID := Some (lit "u1") |} ] |} ]
     = ([], true).
Proof. by vm_compute. Qed.

(** ** C4: an entry that already holds a block of the local host *)

(** The loop body skips an entry that holds a block of the local host,
    before the command line is looked at. *)
Lemma eventAction_HasBlock (cal h summary description : str) :
  HasBlock description h = true ->
  eventAction (NewGuest cal h) summary description = None.
Proof.
  intros Hblock. rewrite eventAction_Decode, Hblock. by destruct (Decode summary).
Qed.

(** C4.  When the description of the entry holds a start marker of the
    local host, anywhere and whatever else it holds, processing the entry
    executes nothing and leaves the store as it is. *)
Theorem processEvent_HasBlock (cal h : str) (os : OS) (srv : Server) (w : World)
    (eventData : CalendarObject) (vevent : Component) (others : list Component) :
  Data eventData = Some (vevent :: others) ->
  HasBlock (Description vevent) h = true ->
  processEvent (NewGuest cal h) os srv w eventData = Some w.
Proof.
  intros Hdata Hblock. unfold processEvent. rewrite Hdata.
  destruct (Summary vevent) as [summary|]; [|done].
  by rewrite eventAction_HasBlock.
Qed.

Lemma processEvent_HasBlock_witness :
  processEvent (NewGuest (lit "calendars/admin/personal/") (lit "h1")) oneFileOS
    acceptingServer {| store := ∅; executed := [] |}
    {| Path := lit "/cal/e1.ics";
       Data := Some [ {| Summary := Some (lit "Meeting from nobody: whoami");
                         Description := lit "junk [OUTPUT-h1] and no end marker";
                         UID := lit "u1" |} ] |}
  = Some {| store := ∅; executed := [] |}.
Proof.
  eapply processEvent_HasBlock.
  - reflexivity.
  - by vm_compute.
Defined.

(** ** The targeting test on a decoded target *)

(** Read through [targetSpec], the test lets the local host act on a
    broadcast and on the wildcard, and on a command addressed to a host
    exactly when the name is its own, compared as it stands. *)
Lemma ShouldExecute_targetSpec (targetHost localHost : str) :
  match targetSpec targetHost with
  | Broadcast | Wildcard => ShouldExecute targetHost localHost = true
  | Host name =>
      name = targetHost /\
      ShouldExecute targetHost localHost = bool_decide (name = localHost)
  end
  /\ ShouldExecute (lit "alpha") (lit "alpha") = true
  /\ ShouldExecute (lit "alpha") (lit "beta") = false
  /\ ShouldExecute (lit "alpha") (lit "Alpha") = false.
Proof.
  split; [|by vm_compute].
  unfold targetSpec, ShouldExecute.
  destruct (decide (targetHost = [])) as [->|Hne]; [done|].
  rewrite (bool_decide_eq_false_2 (targetHost = [])) by done.
  destruct (decide (targetHost = lit "*")) as [->|Hns].
  - rewrite bool_decide_eq_true_2 by done.
    rewrite (bool_decide_eq_false_2 (lit "*" <> lit "*")) by (intros H; by apply H).
    by rewrite andb_false_r.
  - rewrite (bool_decide_eq_false_2 (targetHost = lit "*")) by done.
    split; [done|].
    rewrite (bool_decide_eq_true_2 (targetHost <> [])) by done.
    rewrite (bool_decide_eq_true_2 (targetHost <> lit "*")) by done.
    rewrite andb_true_l, andb_true_r.
    destruct (decide (targetHost = localHost)) as [->|Hnl].
    + rewrite (bool_decide_eq_true_2 (localHost = localHost)) by done.
      by rewrite bool_decide_eq_false_2 by (intros H; by apply H).
    + rewrite (bool_decide_eq_false_2 (targetHost = localHost)) by done.
      by rewrite bool_decide_eq_true_2.
Qed.

(** ** C6: the block appended by [UpdateEventWithOutput] *)

Lemma newDescription_HasBlock (description host output : str) :
  HasBlock (newDescription description host output) host = true.
Proof.
  unfold HasBlock, newDescription.
  rewrite (app_assoc description [nl; nl]). apply Contains_app.
Qed.

Lemma newDescription_keeps_blocks (description host output other : str) :
  HasBlock description other = true ->
  HasBlock (newDescription description host output) other = true.
Proof.
  unfold HasBlock, newDescription. intros H.
  apply Contains_true in H as (x & t & ->).
  rewrite <- !app_assoc. apply Contains_app.
Qed.

(** C6.  The description [UpdateEventWithOutput] builds is the old
    description, unchanged, followed by an empty line, the start marker of
    the host, the output as it is and the end marker of the same host; the
    summary, the UID and the other children of the object stay as they were,
    and so does every block the old description held.  The store holds the
    new object when the fetch succeeded and the server accepted the put, and
    is unchanged otherwise; no other path is touched. *)
Theorem UpdateEventWithOutput_appends (g : Guest) (srv : Server)
    (store : gmap str (option (list Component))) (eventUID output eventPath : str)
    (vevent : Component) (others : list Component) :
  store !! eventPath = Some (Some (vevent :: others)) ->
  exists vevent',
    Description vevent' =
      Description vevent ++ [nl; nl] ++ lit "[OUTPUT-" ++ hostname g ++ lit "]"
        ++ [nl] ++ output ++ [nl] ++ lit "[/OUTPUT-" ++ hostname g ++ lit "]"
    /\ Summary vevent' = Summary vevent
    /\ UID vevent' = UID vevent
    /\ (forall other, HasBlock (Description vevent) other = true ->
                      HasBlock (Description vevent') other = true)
    /\ UpdateEventWithOutput g srv store eventUID output eventPath
       = Some (if fetchFails srv eventPath then store
               else if putAccepted srv eventPath (vevent' :: others)
                    then <[eventPath := Some (vevent' :: others)]> store
                    else store)
    /\ (forall path, path <> eventPath ->
          <[eventPath := Some (vevent' :: others)]> store !! path = store !! path).
Proof.
  intros Hget.
  exists {| Summary := Summary vevent;
            Description := newDescription (Description vevent) (hostname g) output;
            UID := UID vevent |}.
  cbn [Description Summary UID]. split; [|split; [|split; [|split; [|split]]]].
  - unfold newDescription, startMarker, endMarker. by rewrite <- !app_assoc.
  - done.
  - done.
  - intros other. apply newDescription_keeps_blocks.
  - unfold UpdateEventWithOutput. rewrite Hget.
    destruct (fetchFails srv eventPath); [done|].
    by destruct (putAccepted srv eventPath _).
  - intros path Hne. by rewrite lookup_insert_ne.
Qed.

Lemma UpdateEventWithOutput_appends_witness :
  exists vevent',
    Description vevent' =
      lit "old" ++ [nl; nl] ++ lit "[OUTPUT-h1]" ++ [nl] ++ lit "/root" ++ [nl]
        ++ lit "[/OUTPUT-h1]"
    /\ UpdateEventWithOutput (NewGuest [] (lit "h1")) acceptingServer
         {[ lit "/e1.ics" := Some [ {| Summary := Some (lit "Meeting from nobody: pwd");
                                       Description := lit "old";
                                       UID := lit "u1" |} ] ]}
         (lit "u1") (lit "/root") (lit "/e1.ics")
       = Some (<[lit "/e1.ics" := Some [vevent']]>
                 {[ lit "/e1.ics" :=
                      Some [ {| Summary := Some (lit "Meeting from nobody: pwd");
                                Description := lit "old";
                                UID := lit "u1" |} ] ]}).
Proof.
  destruct (UpdateEventWithOutput_appends (NewGuest [] (lit "h1")) acceptingServer
    {[ lit "/e1.ics" := Some [ {| Summary := Some (lit "Meeting from nobody: pwd");
                                  Description := lit "old";
                                  UID := lit "u1" |} ] ]}
    (lit "u1") (lit "/root") (lit "/e1.ics")
    {| Summary := Some (lit "Meeting from nobody: pwd");
       Description := lit "old"; UID := lit "u1" |} [])
    as (vevent' & Hdesc & _ & _ & _ & Hupd & _).
  - apply lookup_singleton_eq.
  - exists vevent'. split; [exact Hdesc | exact Hupd].
Defined.

(** ** C7: an annotation without a colon *)

(** C7.  When the command line of a summary that carries the prefix begins
    with [@] and holds no colon, decoding succeeds with no target, the whole
    command line is the command text, and every host that has no block in
    the entry executes it. *)
Theorem Decode_annotation_without_colon (summary : str) :
  HasPrefix summary (lit "Meeting from nobody:") = true ->
  HasPrefix (commandLineOf summary) (lit "@") = true ->
  (58 : N) ∉ commandLineOf summary ->
  Decode summary =
    Some {| targetHost := [];
            actualCmd := commandLineOf summary;
            command := (splitCommand (commandLineOf summary)).1;
            args := (splitCommand (commandLineOf summary)).2 |}
  /\ targetSpec [] = Broadcast
  /\ forall cal h description,
       HasBlock description h = false ->
       eventAction (NewGuest cal h) summary description
         = Some (splitCommand (commandLineOf summary)).
Proof.
  intros Hpre Hat Hcolon.
  assert (Hd : Decode summary =
    Some {| targetHost := [];
            actualCmd := commandLineOf summary;
            command := (splitCommand (commandLineOf summary)).1;
            args := (splitCommand (commandLineOf summary)).2 |}).
  { unfold Decode. rewrite Hpre. cbn [negb].
    fold (commandLineOf summary). rewrite Hat.
    by rewrite SplitN2_None. }
  split; [done|]. split; [done|].
  intros cal h description Hblock.
  rewrite eventAction_Decode, Hd, Hblock. cbn [targetHost command args].
  by destruct (splitCommand (commandLineOf summary)).
Qed.

Lemma Decode_annotation_without_colon_witness :
  Decode (lit "Meeting from nobody: @web01 uname -a") =
    Some {| targetHost := [];
            actualCmd := lit "@web01 uname -a";
            command := lit "@web01";
            args := lit "uname -a" |}
  /\ targetSpec [] = Broadcast
  /\ forall cal h description,
       HasBlock description h = false ->
       eventAction (NewGuest cal h) (lit "Meeting from nobody: @web01 uname -a")
         description
         = Some (lit "@web01", lit "uname -a").
Proof.
  apply (Decode_annotation_without_colon (lit "Meeting from nobody: @web01 uname -a")).
  - by vm_compute.
  - by vm_compute.
  - intros H. apply list_elem_of_In in H. vm_compute in H.
    repeat (destruct H as [H|H]; [discriminate|]). done.
Defined.

(** ** C8: the [upload] command *)

(** C8 (amended).  [upload] reads the file named by its whole argument
    string, trimmed, and answers, after the host line, with the name of the
    file and its content in base64 between the [DATA] and [/DATA] lines; when
    the read fails it answers with the text of the error. *)
Theorem ExecuteCommand_upload (g : Guest) (os : OS) (argstr : str) :
  ExecuteCommand g os (lit "upload") argstr =
    lit "[Host: " ++ hostname g ++ lit "]" ++ [nl] ++
    match ReadFile os (TrimSpace argstr) with
    | inl data =>
        lit "File: " ++ TrimSpace argstr ++ [nl] ++ lit "[DATA]" ++ [nl]
          ++ base64.EncodeToString data ++ [nl] ++ lit "[/DATA]"
    | inr err => lit "Error: " ++ err
    end.
Proof.
  unfold ExecuteCommand.
  change (bool_decide (lit "upload" = lit "whoami")) with false.
  change (bool_decide (lit "upload" = lit "pwd")) with false.
  change (bool_decide (lit "upload" = lit "upload")) with true.
  cbv beta iota zeta.
  destruct (ReadFile os (TrimSpace argstr)); by rewrite <- !app_assoc.
Qed.

(** The dispatcher hands [upload] every argument after the command, joined
    by single spaces. *)
Lemma upload_two_arguments (cal h : str) :
  eventAction (NewGuest cal h) (lit "Meeting from nobody: upload a b") []
  = Some (lit "upload", lit "a b").
Proof. unfold eventAction. by vm_compute. Qed.

(** C8 as stated fails: with the arguments [a] and [b], where [a] is a file,
    the file read is [a b], and the answer is the error of that read. *)
Lemma upload_counterexample :
  ~ UploadReadsFirstArgument (NewGuest [] (lit "h1")) oneFileOS [lit "a"; lit "b"]
  /\ ExecuteCommand (NewGuest [] (lit "h1")) oneFileOS (lit "upload") (lit "a b")
     = lit "[Host: h1]" ++ [nl] ++ lit "Error: open a b: no such file or directory"
  /\ ExecuteCommand (NewGuest [] (lit "h1")) oneFileOS (lit "upload") (lit "a")
     = lit "[Host: h1]" ++ [nl] ++ lit "File: a" ++ [nl] ++ lit "[DATA]" ++ [nl]
         ++ lit "TWFu" ++ [nl] ++ lit "[/DATA]".
Proof.
  split; [|by vm_compute].
  unfold UploadReadsFirstArgument. intros H. by vm_compute in H.
Qed.

(** ** C10: an annotation with an empty host name *)

Lemma trimRight_split (s : str) :
  exists ws, s = trimRight s ++ ws /\ Forall (fun c => IsSpace c = true) ws.
Proof.
  induction s as [|c s (ws & Hs & Hws)]; [by exists []|].
  simpl. destruct (trimRight s) as [|d t] eqn:E.
  - simpl in Hs. subst ws. destruct (IsSpace c) eqn:Hc.
    + exists (c :: s). split; [done|]. by constructor.
    + by exists s.
  - exists ws. split; [|done]. simpl. by f_equal.
Qed.

Lemma trimRight_idemp (s : str) : trimRight (trimRight s) = trimRight s.
Proof.
  destruct (trimRight_split s) as (ws & Hs & Hws).
  rewrite Hs at 2. by rewrite trimRight_spaces.
Qed.

Lemma splitCommand_trimRight (s : str) :
  splitCommand (trimRight s) = splitCommand s.
Proof.
  destruct (trimRight_split s) as (ws & Hs & Hws).
  unfold splitCommand. rewrite Hs at 3 4. by rewrite Fields_trailing_spaces.
Qed.

Lemma trimLeft_spaces (ws s : str) :
  Forall (fun c => IsSpace c = true) ws -> trimLeft (ws ++ s) = trimLeft s.
Proof. induction 1 as [|c ws Hc _ IH]; [done|]. simpl. by rewrite Hc. Qed.

(** The decoding of a summary whose annotation has an empty host name,
    whatever white space separates the prefix from the annotation. *)
Lemma Decode_empty_host (ws rest : str) :
  Forall (fun c => IsSpace c = true) ws ->
  Decode (lit "Meeting from nobody:" ++ ws ++ lit "@:" ++ rest) =
    Some {| targetHost := []; actualCmd := trimRight rest;
            command := (splitCommand rest).1; args := (splitCommand rest).2 |}.
Proof.
  intros Hws. unfold Decode.
  rewrite HasPrefix_app, TrimPrefix_app. cbn [negb].
  assert (Hline : TrimSpace (ws ++ lit "@:" ++ rest) = [64] ++ 58 :: trimRight rest).
  { unfold TrimSpace. rewrite trimLeft_spaces by done.
    change (trimLeft (lit "@:" ++ rest)) with ([64; 58] ++ rest).
    destruct (trimRight_split rest) as (sp & Hs & Hsp).
    rewrite Hs at 1. rewrite app_assoc, trimRight_spaces by done.
    change ([64] ++ 58 :: trimRight rest) with ([64; 58] ++ trimRight rest).
    destruct (trimRight rest) as [|c t] eqn:E; [by vm_compute|].
    apply trimRight_app_fix; [done|].
    rewrite <- E. apply trimRight_idemp. }
  rewrite Hline. change (HasPrefix ([64] ++ 58 :: trimRight rest) (lit "@")) with true.
  rewrite SplitN2_app by (rewrite not_elem_of_cons, elem_of_nil; lia).
  cbv beta iota zeta. change (TrimPrefix [64] (lit "@")) with (@nil N).
  by rewrite splitCommand_trimRight.
Qed.

(** C10.  A summary that is the prefix, white space (the space
    [CreateCommand] writes, or none) and an annotation with an empty host
    name decodes to the empty target, which stands for a broadcast and passes
    the targeting test of every host; the text after the colon is the command
    line, and every host without a block in the entry executes it. *)
Theorem eventAction_empty_host (cal h ws rest description : str) :
  Forall (fun c => IsSpace c = true) ws ->
  (exists r, Decode (lit "Meeting from nobody:" ++ ws ++ lit "@:" ++ rest) = Some r
     /\ targetSpec (targetHost r) = Broadcast
     /\ ShouldExecute (targetHost r) h = true
     /\ actualCmd r = trimRight rest
     /\ (command r, args r) = splitCommand rest)
  /\ eventAction (NewGuest cal h)
       (lit "Meeting from nobody:" ++ ws ++ lit "@:" ++ rest) description
     = if HasBlock description h then None else Some (splitCommand rest).
Proof.
  intros Hws. split.
  - eexists. split; [by apply Decode_empty_host|].
    cbn [targetHost actualCmd command args]. repeat split.
  - rewrite eventAction_Decode, Decode_empty_host by done.
    cbn [targetHost command args].
    destruct (HasBlock description h); [done|].
    by destruct (splitCommand rest).
Qed.

Lemma eventAction_empty_host_witness :
  (exists r, Decode (lit "Meeting from nobody: @:uname -a") = Some r
     /\ targetSpec (targetHost r) = Broadcast
     /\ ShouldExecute (targetHost r) (lit "h1") = true
     /\ actualCmd r = lit "uname -a"
     /\ (command r, args r) = (lit "uname", lit "-a"))
  /\ eventAction (NewGuest [] (lit "h1")) (lit "Meeting from nobody: @:uname -a") []
     = Some (lit "uname", lit "-a").
Proof.
  apply (eventAction_empty_host [] (lit "h1") (lit " ") (lit "uname -a") []).
  by repeat constructor.
Defined.

(** ** C5: the targeting test *)

Lemma trimRight_cons (c : rune) (s : str) :
  IsSpace c = false -> trimRight (c :: s) = c :: trimRight s.
Proof. intros Hc. simpl. destruct (trimRight s); [by rewrite Hc|done]. Qed.

Lemma trimRight_app_cons (a : str) (c : rune) (s : str) :
  IsSpace c = false -> trimRight (a ++ c :: s) = a ++ c :: trimRight s.
Proof.
  intros Hc. induction a as [|x a IH]; [by apply trimRight_cons|].
  cbn [app trimRight]. rewrite IH. by destruct a.
Qed.

Lemma Fields_trimLeft (s : str) : Fields (trimLeft s) = Fields s.
Proof.
  induction s as [|c s IH]; [done|]. cbn [trimLeft].
  destruct (IsSpace c) eqn:Hc; [|done]. by rewrite Fields_cons_space.
Qed.

Lemma splitCommand_TrimSpace (s : str) : splitCommand (TrimSpace s) = splitCommand s.
Proof.
  unfold TrimSpace. rewrite splitCommand_trimRight.
  unfold splitCommand. by rewrite Fields_trimLeft.
Qed.

(** The test of line 171 lets the local host act exactly on an empty target
    name, on [*] and on its own name. *)
Lemma ShouldExecute_cases (targetHost localHost : str) :
  ShouldExecute targetHost localHost
  = bool_decide (targetHost = [] \/ targetHost = lit "*" \/ targetHost = localHost).
Proof.
  unfold ShouldExecute.
  destruct (decide (targetHost = [])) as [->|Hne].
  { by rewrite (bool_decide_eq_true_2 (_ \/ _)) by by left. }
  rewrite (bool_decide_eq_true_2 (targetHost <> [])) by done.
  destruct (decide (targetHost = localHost)) as [->|Hnl].
  { rewrite (bool_decide_eq_false_2 (localHost <> localHost)) by (intros H; by apply H).
    by rewrite (bool_decide_eq_true_2 (_ \/ _)) by (right; by right). }
  rewrite (bool_decide_eq_true_2 (targetHost <> localHost)) by done.
  destruct (decide (targetHost = lit "*")) as [->|Hns].
  { rewrite (bool_decide_eq_false_2 (lit "*" <> lit "*")) by (intros H; by apply H).
    by rewrite (bool_decide_eq_true_2 (_ \/ _)) by (right; by left). }
  rewrite (bool_decide_eq_true_2 (targetHost <> lit "*")) by done.
  by rewrite (bool_decide_eq_false_2 (_ \/ _)) by (intros [?|[?|?]]; done).
Qed.

(** The decoding of a summary that carries the annotation of a target. *)
Lemma Decode_annotation (t : TargetSpec) (text : str) :
  Annotated t text ->
  exists r,
    Decode (lit "Meeting from nobody: " ++ annotation t ++ text) = Some r
    /\ targetHost r = targetName t
    /\ (command r, args r) = splitCommand text.
Proof.
  intros Hwf. unfold Decode.
  change (lit "Meeting from nobody: " ++ annotation t ++ text)
    with (lit "Meeting from nobody:" ++ 32 :: (annotation t ++ text)).
  rewrite HasPrefix_app, TrimPrefix_app. cbn [negb].
  change (TrimSpace (32 :: (annotation t ++ text)))
    with (TrimSpace (annotation t ++ text)).
  destruct t as [| |name]; cbn [annotation targetName] in *.
  - cbn [app]. rewrite Hwf. eexists. split; [done|].
    cbn [targetHost command args]. split; [done|].
    rewrite splitCommand_TrimSpace. by destruct (splitCommand text).
  - assert (Hline : TrimSpace (lit "@*:" ++ text) = [64; 42] ++ 58 :: trimRight text).
    { unfold TrimSpace.
      change (trimLeft (lit "@*:" ++ text)) with ([64; 42] ++ 58 :: text).
      by apply trimRight_app_cons. }
    rewrite Hline. change (HasPrefix ([64; 42] ++ 58 :: trimRight text) (lit "@")) with true.
    rewrite SplitN2_app by (rewrite !not_elem_of_cons, elem_of_nil; lia).
    cbv beta iota zeta. eexists. split; [done|].
    cbn [targetHost command args]. split; [done|].
    rewrite splitCommand_trimRight. by destruct (splitCommand text).
  - rewrite <- !app_assoc.
    assert (Hline : TrimSpace (lit "@" ++ name ++ lit ":" ++ text)
                    = (64 :: name) ++ 58 :: trimRight text).
    { unfold TrimSpace.
      change (trimLeft (lit "@" ++ name ++ lit ":" ++ text))
        with (64 :: (name ++ lit ":" ++ text)).
      change (64 :: (name ++ lit ":" ++ text)) with ((64 :: name) ++ 58 :: text).
      by apply trimRight_app_cons. }
    rewrite Hline.
    change (HasPrefix ((64 :: name) ++ 58 :: trimRight text) (lit "@")) with true.
    rewrite SplitN2_app by (rewrite not_elem_of_cons; split; [lia|done]).
    cbv beta iota zeta. change (64 :: name) with (lit "@" ++ name).
    rewrite TrimPrefix_app. eexists. split; [done|].
    cbn [targetHost command args]. split; [done|].
    rewrite splitCommand_trimRight. by destruct (splitCommand text).
Qed.

(** C5.  On an entry whose summary carries the annotation of a target, the
    guest skips the entry when the description holds its block, and
    otherwise executes the command text exactly when the targeting test of
    line 171 passes: always for a broadcast and for the wildcard, and for
    [Host name] exactly when [name] is empty, is [*], or is the name of the
    local host, compared as it stands (no change of case, no trimming). *)
Theorem eventAction_target (cal localHost text description : str) (t : TargetSpec) :
  Annotated t text ->
  eventAction (NewGuest cal localHost)
    (lit "Meeting from nobody: " ++ annotation t ++ text) description
  = (if HasBlock description localHost then None
     else if ShouldExecute (targetName t) localHost then Some (splitCommand text)
          else None)
  /\ ShouldExecute (targetName t) localHost
     = match t with
       | Broadcast | Wildcard => true
       | Host name => bool_decide (name = [] \/ name = lit "*" \/ name = localHost)
       end.
Proof.
  intros Hwf. split.
  - rewrite eventAction_Decode.
    destruct (Decode_annotation t text Hwf) as (r & -> & -> & Hr).
    destruct (HasBlock description localHost); [done|].
    by rewrite Hr.
  - rewrite ShouldExecute_cases. destruct t as [| |name]; [| |done].
    + apply bool_decide_eq_true_2. by left.
    + apply bool_decide_eq_true_2. right. by left.
Qed.

Lemma eventAction_target_witness :
  eventAction (NewGuest [] (lit "beta")) (lit "Meeting from nobody: @alpha:pwd") []
  = None
  /\ ShouldExecute (lit "alpha") (lit "beta") = false.
Proof.
  apply (eventAction_target [] (lit "beta") (lit "pwd") [] (Host (lit "alpha"))).
  intros Hin. apply list_elem_of_In in Hin. vm_compute in Hin. intuition discriminate.
Defined.

(** C5 as stated fails for the targets [Host ""] and [Host "*"]: the name
    differs from that of the local host, and the local host executes the
    command. *)
Lemma TargetingAsStated_counterexample :
  ~ TargetingAsStated (Host []) (lit "beta")
  /\ ~ TargetingAsStated (Host (lit "*")) (lit "beta")
  /\ eventAction (NewGuest [] (lit "beta"))
       (lit "Meeting from nobody: " ++ annotation (Host []) ++ lit "pwd") []
     = Some (lit "pwd", [])
  /\ eventAction (NewGuest [] (lit "beta"))
       (lit "Meeting from nobody: " ++ annotation (Host (lit "*")) ++ lit "pwd") []
     = Some (lit "pwd", []).
Proof.
  split; [|split; [|by vm_compute]]; intros H; by vm_compute in H.
Qed.

(** ** The scenarios of the specification *)

(** Broadcast execution: two hosts process the entry once each; the
    description ends up with the block of each host, in that order. *)
Example broadcast_execution :
  exists w1 w2,
    processEvent guest1 linuxOS acceptingServer (created scenarioPath (lit "whoami"))
      (fetch (store (created scenarioPath (lit "whoami"))) scenarioPath)
      = Some w1
    /\ processEvent guest2 linuxOS acceptingServer w1 (fetch (store w1) scenarioPath) = Some w2
    /\ executed w2 = [(lit "whoami", []); (lit "whoami", [])]
    /\ descriptionAt (store w2) scenarioPath =
         Some ([nl; nl] ++ lit "[OUTPUT-h1]" ++ [nl]
               ++ lit "[Host: h1]" ++ [nl] ++ lit "User: root" ++ [nl]
               ++ lit "Hostname: h1" ++ [nl] ++ lit "OS: linux/amd64" ++ [nl]
               ++ lit "[/OUTPUT-h1]"
               ++ [nl; nl] ++ lit "[OUTPUT-h2]" ++ [nl]
               ++ lit "[Host: h2]" ++ [nl] ++ lit "User: root" ++ [nl]
               ++ lit "Hostname: h2" ++ [nl] ++ lit "OS: linux/amd64" ++ [nl]
               ++ lit "[/OUTPUT-h2]").
Proof. do 2 eexists. repeat split; by vm_compute. Qed.

(** Block isolation: both bodies and both names are read back from that
    description. *)
Example block_isolation :
  let description :=
    [nl; nl] ++ lit "[OUTPUT-alpha]" ++ [nl] ++ lit "first" ++ [nl] ++ lit "  body"
      ++ [nl] ++ lit "[/OUTPUT-alpha]"
      ++ [nl; nl] ++ lit "[OUTPUT-beta]" ++ [nl] ++ lit "second" ++ [nl]
      ++ lit "[/OUTPUT-beta]" in
  extractHostOutputs description !! lit "alpha" = Some (lit "first" ++ [nl] ++ lit "  body")
  /\ extractHostOutputs description !! lit "beta" = Some (lit "second")
  /\ getExecutedHosts description = [lit "alpha"; lit "beta"]
  /\ eventStatus description = lit "Executed (alpha, beta)".
Proof. repeat split; by vm_compute. Qed.

(** Targeted mismatch: the entry addressed to [h2] is skipped by [h1]. *)
Example targeted_mismatch :
  processEvent guest1 linuxOS acceptingServer (created scenarioPath (lit "@h2:pwd"))
    (fetch (store (created scenarioPath (lit "@h2:pwd"))) scenarioPath)
    = Some (created scenarioPath (lit "@h2:pwd"))
  /\ eventStatus [] = lit "Pending".
Proof. split; by vm_compute. Qed.

(** The target is honoured by the host it names. *)
Example targeted_match :
  eventAction guest2 (lit "Meeting from nobody: @h2:pwd") [] = Some (lit "pwd", [])
  /\ eventAction guest2 (lit "Meeting from nobody: @*:ls -la  /tmp") []
     = Some (lit "ls", lit "-la /tmp").
Proof. split; by vm_compute. Qed.

(** Clear: an entry with a block is removed, a pending one is left. *)
Example clear_scenario :
  ClearExecutedEvents (fun _ => true)
    [ {| rawPath := lit "/cal/u1.ics";
         rawData := Some [ {| rawSummary := Some (lit "Meeting from nobody: whoami");
                              rawDescription :=
                                Some (lit "\n\n[OUTPUT-h1]\nroot\n[/OUTPUT-h1]");
                              rawUID := Some (lit "u1") |} ] |};
      {| rawPath := lit "/cal/u2.ics";
         rawData := Some [ {| rawSummary := Some (lit "Meeting from nobody: pwd");
                              rawDescription := Some [];
                              rawUID := Some (lit "u2") |} ] |} ]
  = ([lit "/cal/u1.ics"], Some 1%nat).
Proof. by vm_compute. Qed.

Example base64_vectors :
  base64.EncodeToString (lit "Man") = lit "TWFu"
  /\ base64.EncodeToString (lit "Ma") = lit "TWE="
  /\ base64.EncodeToString (lit "M") = lit "TQ=="
  /\ base64.EncodeToString [255; 254; 253; 0; 16] = lit "//79ABA=".
Proof. repeat split; by vm_compute. Qed.

Example strings_examples :
  Fields (lit "  ls   -la /tmp ") = [lit "ls"; lit "-la"; lit "/tmp"]
  /\ Fields ([0xA0] ++ lit "a" ++ [0x2003] ++ lit "b") = [lit "a"; lit "b"]
  /\ TrimSpace (lit "  a b  ") = lit "a b"
  /\ Split (lit "a:b::") 58 = [lit "a"; lit "b"; []; []]
  /\ Split [] nl = [[]]
  /\ SplitN2 (lit "@h:a:b") 58 = [lit "@h"; lit "a:b"]
  /\ SplitN2 (lit "@h") 58 = [lit "@h"]
  /\ TrimSuffix (lit "abc]") (lit "]") = lit "abc"
  /\ Contains (lit "x[OUTPUT-h]y") (lit "[OUTPUT-h]") = true
  /\ unescape (lit "a\nb") = lit "a" ++ [nl] ++ lit "b".
Proof. repeat split; by vm_compute. Qed.


(** * Further properties of the code *)

(** ** Lines *)

Section SplitFacts.

Implicit Types (s a b x : str) (sep : rune).

Lemma Split_nonempty s sep : Split s sep <> [].
Proof.
  destruct s as [|c s]; simpl; [done|].
  destruct (c =? sep); [done|]. by destruct (Split s sep).
Qed.

Lemma Split_cons_other c s sep :
  (c =? sep) = false ->
  exists l ls, Split s sep = l :: ls /\ Split (c :: s) sep = (c :: l) :: ls.
Proof.
  intros Hc. destruct (Split s sep) as [|l ls] eqn:E.
  - by destruct (Split_nonempty s sep).
  - exists l, ls. split; [done|]. simpl. by rewrite Hc, E.
Qed.

Lemma Split_app_sep a b sep :
  Split (a ++ sep :: b) sep = Split a sep ++ Split b sep.
Proof.
  induction a as [|c a IH]; simpl.
  - by rewrite N.eqb_refl.
  - destruct (c =? sep) eqn:Hc; [by rewrite IH|].
    rewrite IH. destruct (Split a sep) as [|l ls] eqn:E; [|done].
    by destruct (Split_nonempty a sep).
Qed.

Lemma Split_no_sep s sep : sep ∉ s -> Split s sep = [s].
Proof.
  induction s as [|c s IH]; intros Hni; simpl; [done|].
  apply not_elem_of_cons in Hni as [Hne Hni].
  destruct (N.eqb_spec c sep) as [->|_]; [done|]. by rewrite IH.
Qed.

Lemma Split_head_prefix s sep l ls :
  Split s sep = l :: ls -> exists b, s = l ++ b.
Proof.
  revert l ls. induction s as [|c s IH]; intros l ls; simpl.
  - intros [= <- <-]. by exists [].
  - destruct (c =? sep).
    + intros [= <- <-]. by exists (c :: s).
    + destruct (Split s sep) as [|l1 ls1] eqn:E.
      * intros [= <- <-]. by exists s.
      * intros [= <- <-]. destruct (IH _ _ eq_refl) as [b ->]. by exists b.
Qed.

Lemma Split_elem_substring s sep x :
  x ∈ Split s sep -> exists a b, s = a ++ x ++ b.
Proof.
  revert x. induction s as [|c s IH]; intros x; simpl.
  - intros ->%list_elem_of_singleton. by exists [], [].
  - destruct (c =? sep) eqn:Hc.
    + intros [->|Hin]%elem_of_cons.
      * by exists [], (c :: s).
      * destruct (IH _ Hin) as (a & b & ->). by exists (c :: a), b.
    + destruct (Split s sep) as [|l ls] eqn:E.
      * by destruct (Split_nonempty s sep).
      * intros [->|Hin]%elem_of_cons.
        -- destruct (Split_head_prefix _ _ _ _ E) as [b ->]. by exists [], b.
        -- destruct (IH x) as (a & b & ->); [by right|]. by exists (c :: a), b.
Qed.

Lemma Join_Split s sep : Join (Split s sep) [sep] = s.
Proof.
  induction s as [|c s IH]; simpl; [done|].
  destruct (N.eqb_spec c sep) as [->|Hne].
  - destruct (Split s sep) as [|l ls] eqn:E; [by destruct (Split_nonempty s sep)|].
    simpl. by rewrite <- IH.
  - destruct (Split s sep) as [|l ls] eqn:E; [by destruct (Split_nonempty s sep)|].
    rewrite <- IH. by destruct ls.
Qed.

End SplitFacts.

(** ** What the organizer lists after a guest wrote its block *)

Lemma getExecutedHosts_app (a b : str) :
  getExecutedHosts (a ++ nl :: b) = getExecutedHosts a ++ getExecutedHosts b.
Proof.
  rewrite !getExecutedHosts_lines, Split_app_sep, filter_app. apply fmap_app.
Qed.

Lemma getExecutedHosts_empty : getExecutedHosts [] = [].
Proof. reflexivity. Qed.

Lemma lit_no_newline_startMarker (host : str) : nl ∉ host -> nl ∉ startMarker host.
Proof.
  intros H. unfold startMarker. rewrite !not_elem_of_app. repeat split; [|done|].
  - intros Hin. apply list_elem_of_In in Hin. vm_compute in Hin. intuition discriminate.
  - intros Hin. apply list_elem_of_In in Hin. vm_compute in Hin. intuition discriminate.
Qed.

Lemma lit_no_newline_endMarker (host : str) : nl ∉ host -> nl ∉ endMarker host.
Proof.
  intros H. unfold endMarker. rewrite !not_elem_of_app. repeat split; [|done|].
  - intros Hin. apply list_elem_of_In in Hin. vm_compute in Hin. intuition discriminate.
  - intros Hin. apply list_elem_of_In in Hin. vm_compute in Hin. intuition discriminate.
Qed.

Lemma getExecutedHosts_startMarker (host : str) :
  nl ∉ host -> getExecutedHosts (startMarker host) = [host].
Proof.
  intros H. rewrite getExecutedHosts_lines.
  rewrite Split_no_sep by by apply lit_no_newline_startMarker.
  destruct (isStartMarker_startMarker host) as [Hs Hh].
  rewrite filter_cons, decide_True by done. by rewrite filter_nil, fmap_cons, Hh.
Qed.

Lemma getExecutedHosts_endMarker (host : str) :
  nl ∉ host -> getExecutedHosts (endMarker host) = [].
Proof.
  intros H. rewrite getExecutedHosts_lines.
  rewrite Split_no_sep by by apply lit_no_newline_endMarker.
  rewrite filter_cons, decide_False; [done|].
  unfold isStartMarker, endMarker. intros Hs. by vm_compute in Hs.
Qed.

(** On the text of the description: after the block of a host is appended,
    the hosts read off are those read off before, then that host, then the
    names of whatever start marker lines the output itself holds. *)
Lemma getExecutedHosts_appended (description host output : str) :
  nl ∉ host ->
  getExecutedHosts (newDescription description host output)
  = getExecutedHosts description ++ [host] ++ getExecutedHosts output.
Proof.
  intros H. unfold newDescription.
  change (description ++ [nl; nl] ++ startMarker host ++ [nl] ++ output ++ [nl]
            ++ endMarker host)
    with (description ++ nl :: ([] ++ nl :: (startMarker host ++ nl ::
            (output ++ nl :: endMarker host)))).
  rewrite !getExecutedHosts_app, getExecutedHosts_empty.
  rewrite getExecutedHosts_startMarker, getExecutedHosts_endMarker by done.
  by rewrite app_nil_r.
Qed.

Lemma ReplaceAll2_cons_other (c : rune) (s new : str) (a b : rune) :
  c <> a -> ReplaceAll2 (c :: s) a b new = c :: ReplaceAll2 s a b new.
Proof.
  intros Hc. destruct s as [|d s]; [done|].
  cbn [ReplaceAll2]. by rewrite (proj2 (N.eqb_neq c a)) by done.
Qed.

Lemma ReplaceAll2_cons_cons (d : rune) (s new : str) (a b : rune) :
  d <> b -> ReplaceAll2 (a :: d :: s) a b new = a :: ReplaceAll2 (d :: s) a b new.
Proof.
  intros Hd. cbn [ReplaceAll2].
  by rewrite (proj2 (N.eqb_neq d b)), andb_false_r by done.
Qed.

(** What the organizer reads back of a text stored without backslash: the
    text, with a backslash before each semicolon and comma. *)
Lemma unescape_SetText (text : str) :
  92 ∉ text -> unescape (SetText text) = escapePunct text.
Proof.
  unfold unescape. induction text as [|c text IH]; [done|].
  intros [Hc Ht]%not_elem_of_cons. specialize (IH Ht).
  unfold SetText, escapePunct in *. cbn [flat_map].
  rewrite (proj2 (N.eqb_neq c 92)) by done.
  destruct (N.eqb_spec c 10) as [->|H10].
  { change ((10 =? 59) || (10 =? 44)) with false. cbn [app].
    change (ReplaceAll2 (92 :: 110 :: ?s) 92 110 [nl])
      with ([nl] ++ ReplaceAll2 s 92 110 [nl]).
    by rewrite IH. }
  destruct (N.eqb_spec c 59) as [->|H59].
  { cbn [orb app]. rewrite ReplaceAll2_cons_cons by lia.
    rewrite ReplaceAll2_cons_other by lia. by rewrite IH. }
  destruct (N.eqb_spec c 44) as [->|H44].
  { cbn [orb app]. rewrite ReplaceAll2_cons_cons by lia.
    rewrite ReplaceAll2_cons_other by lia. by rewrite IH. }
  cbn [orb app]. rewrite ReplaceAll2_cons_other by done. by rewrite IH.
Qed.

(** A text without backslash, semicolon and comma is read back as it is. *)
Lemma escapePunct_plain (text : str) :
  59 ∉ text -> 44 ∉ text -> escapePunct text = text.
Proof.
  induction text as [|c text IH]; [done|].
  intros [H59 H1]%not_elem_of_cons [H44 H2]%not_elem_of_cons.
  unfold escapePunct in *. cbn [flat_map].
  rewrite (proj2 (N.eqb_neq c 59)), (proj2 (N.eqb_neq c 44)) by done.
  cbn [orb app]. by rewrite IH.
Qed.

Lemma escapePunct_app (a b : str) :
  escapePunct (a ++ b) = escapePunct a ++ escapePunct b.
Proof. apply flat_map_app. Qed.

Lemma escapePunct_elem (c : rune) (text : str) :
  c ∈ escapePunct text -> c = 92 \/ c ∈ text.
Proof.
  induction text as [|d text IH]; [by intros ?%elem_of_nil|].
  unfold escapePunct in *. cbn [flat_map]. rewrite elem_of_app.
  intros [H|H].
  - destruct ((d =? 59) || (d =? 44)).
    + apply elem_of_cons in H as [->|H]; [by left|].
      apply list_elem_of_singleton in H as ->. right. by left.
    + apply list_elem_of_singleton in H as ->. right. by left.
  - destruct (IH H) as [->|Hin]; [by left|]. right. by right.
Qed.

Lemma escapePunct_nonempty (text : str) : text <> [] -> escapePunct text <> [].
Proof.
  destruct text as [|c text]; [done|]. intros _.
  unfold escapePunct. cbn [flat_map]. by destruct ((c =? 59) || (c =? 44)).
Qed.

Lemma escapePunct_newDescription (description host output : str) :
  escapePunct (newDescription description host output)
  = newDescription (escapePunct description) (escapePunct host) (escapePunct output).
Proof.
  unfold newDescription, startMarker, endMarker.
  by rewrite !escapePunct_app.
Qed.

Lemma newDescription_no_backslash (description host output : str) :
  92 ∉ description -> 92 ∉ host -> 92 ∉ output ->
  92 ∉ newDescription description host output.
Proof.
  intros Hd Hh Ho. unfold newDescription, startMarker, endMarker.
  rewrite !not_elem_of_app. repeat split; try done;
    intros Hin; apply list_elem_of_In in Hin; vm_compute in Hin; intuition discriminate.
Qed.

(** X7.  After a guest stored its block by [SetText], the hosts the
    organizer reads off the raw description, newlines unescaped, are those
    read off before, then the name of the guest (with a backslash before
    each semicolon and comma), then the names of whatever start marker lines
    the output itself holds: provided description, name and output hold no
    backslash and the name no newline. *)
Theorem getExecutedHosts_stored (description host output : str) :
  92 ∉ description -> 92 ∉ host -> 92 ∉ output ->
  nl ∉ host ->
  getExecutedHosts (unescape (SetText (newDescription description host output)))
  = getExecutedHosts (unescape (SetText description)) ++ [escapePunct host]
      ++ getExecutedHosts (unescape (SetText output)).
Proof.
  intros Hd Hh Ho Hnl.
  rewrite !unescape_SetText by (done || by apply newDescription_no_backslash).
  rewrite escapePunct_newDescription.
  apply getExecutedHosts_appended.
  intros [H|H]%escapePunct_elem; [by vm_compute in H|done].
Qed.

Lemma getExecutedHosts_stored_witness :
  getExecutedHosts
    (unescape (SetText (newDescription (lit "note") (lit "h1") (lit "[Host: h1]"))))
  = getExecutedHosts (unescape (SetText (lit "note"))) ++ [escapePunct (lit "h1")]
      ++ getExecutedHosts (unescape (SetText (lit "[Host: h1]"))).
Proof.
  apply (getExecutedHosts_stored (lit "note") (lit "h1") (lit "[Host: h1]"));
    intros Hin; apply list_elem_of_In in Hin; vm_compute in Hin; intuition discriminate.
Defined.

(** X8.  Every host the organizer reads off a description as having executed is
    a host whose guest finds its block there, and so skips the entry. *)
Theorem getExecutedHosts_HasBlock (description host : str) :
  host ∈ getExecutedHosts description -> HasBlock description host = true.
Proof.
  rewrite getExecutedHosts_lines, list_elem_of_fmap.
  intros (line & -> & Hin). apply list_elem_of_filter in Hin as [Hs Hin].
  apply Split_elem_substring in Hin as (a & b & ->).
  unfold HasBlock. rewrite <- (isStartMarker_inv line Hs). apply Contains_app.
Qed.

Lemma getExecutedHosts_HasBlock_witness :
  HasBlock (lit "[OUTPUT-h1]") (lit "h1") = true.
Proof.
  apply (getExecutedHosts_HasBlock (lit "[OUTPUT-h1]") (lit "h1")).
  vm_compute. by left.
Defined.

(** ** What the guest executes, and what it answers *)

(** X4.  Whatever the command, the answer of [ExecuteCommand] opens with the
    line that names the host; in particular it is never empty and never
    begins with a newline. *)
Theorem ExecuteCommand_host_line (g : Guest) (os : OS) (cmd argstr : str) :
  exists rest,
    ExecuteCommand g os cmd argstr
    = lit "[Host: " ++ hostname g ++ lit "]" ++ [nl] ++ rest.
Proof.
  unfold ExecuteCommand.
  repeat case_bool_decide;
    try destruct (ReadFile os _);
    try destruct (CombinedOutput os _ _) as [out [e|]];
    rewrite <- ?app_assoc; eexists; reflexivity.
Qed.

(** X3.  The guest executes a command only for an entry that carries the prefix,
    holds no block of the guest, and is addressed to no host, to the guest
    itself or to every host; and the command is the decoded one. *)
Theorem eventAction_Some (cal h summary description cmd argstr : str) :
  eventAction (NewGuest cal h) summary description = Some (cmd, argstr) ->
  HasPrefix summary (lit "Meeting from nobody:") = true
  /\ HasBlock description h = false
  /\ exists r, Decode summary = Some r
       /\ (targetHost r = [] \/ targetHost r = h \/ targetHost r = lit "*")
       /\ command r = cmd /\ args r = argstr.
Proof.
  rewrite eventAction_Decode. intros H.
  destruct (HasPrefix summary (lit "Meeting from nobody:")) eqn:Hpre.
  2:{ unfold Decode in H. by rewrite Hpre in H. }
  split; [done|].
  destruct (Decode summary) as [r|]; [|done].
  destruct (HasBlock description h); [done|]. split; [done|].
  destruct (ShouldExecute (targetHost r) h) eqn:Hs; [|done].
  injection H as <- <-. exists r. split; [done|]. split; [|done].
  unfold ShouldExecute in Hs. apply negb_true_iff in Hs.
  apply andb_false_iff in Hs as [Hs|Hs];
    [apply andb_false_iff in Hs as [Hs|Hs]|];
    apply bool_decide_eq_false in Hs; apply dec_stable in Hs; auto.
Qed.

Lemma eventAction_Some_witness :
  HasPrefix (lit "Meeting from nobody: @h1:uname -a") (lit "Meeting from nobody:") = true
  /\ HasBlock [] (lit "h1") = false
  /\ exists r, Decode (lit "Meeting from nobody: @h1:uname -a") = Some r
       /\ (targetHost r = [] \/ targetHost r = lit "h1" \/ targetHost r = lit "*")
       /\ command r = lit "uname" /\ args r = lit "-a".
Proof.
  apply (eventAction_Some [] (lit "h1") (lit "Meeting from nobody: @h1:uname -a") []).
  by vm_compute.
Defined.

(** ** From the console to the guest *)

Lemma commandLineOf_Join (word : str) (argv : list str) :
  Token word -> Forall Token argv ->
  commandLineOf (lit "Meeting from nobody: " ++ Join (word :: argv) [32])
  = Join (word :: argv) [32].
Proof.
  intros Hw Ha. unfold commandLineOf.
  change (lit "Meeting from nobody: ") with (lit "Meeting from nobody:" ++ [32]).
  rewrite <- app_assoc, TrimPrefix_app. unfold TrimSpace.
  change (trimLeft ([32] ++ Join (word :: argv) [32]))
    with (trimLeft (Join (word :: argv) [32])).
  rewrite trimLeft_Join by done.
  by apply Join_tokens_trimRight; [constructor|].
Qed.

(** X6.  A console line [exec word arg ...] whose first word after [exec] does
    not begin with [@] creates an entry that every guest without a block in
    it executes as that word with the remaining words joined by single
    spaces, whatever white space the operator typed. *)
Theorem exec_broadcast (input word : str) (argv : list str)
    (cal h description : str) :
  Fields input = lit "exec" :: word :: argv ->
  HasPrefix word (lit "@") = false ->
  HasBlock description h = false ->
  exists cmd,
    execCommand input = Some cmd
    /\ eventAction (NewGuest cal h) (lit "Meeting from nobody: " ++ cmd) description
       = Some (word, Join argv (lit " ")).
Proof.
  intros Hf Hat Hblock.
  pose proof (Fields_Token input) as Htok. rewrite Hf in Htok.
  inversion Htok as [|? ? _ Htok']; subst. inversion Htok' as [|? ? Hw Ha]; subst.
  exists (Join (word :: argv) (lit " ")). split.
  { unfold execCommand. rewrite Hf. by rewrite bool_decide_eq_true_2. }
  change (lit " ") with [32 : N].
  rewrite eventAction_Decode. unfold Decode.
  change (lit "Meeting from nobody: ") with (lit "Meeting from nobody:" ++ [32]) at 1.
  rewrite <- app_assoc, HasPrefix_app. cbn [negb].
  change (lit "Meeting from nobody:" ++ [32] ++ Join (word :: argv) [32])
    with (lit "Meeting from nobody: " ++ Join (word :: argv) [32]).
  fold (commandLineOf (lit "Meeting from nobody: " ++ Join (word :: argv) [32])).
  rewrite commandLineOf_Join by done.
  change (lit "@") with [64 : N]. rewrite HasPrefix_Join by apply Hw.
  change (lit "@") with [64 : N] in Hat. rewrite Hat.
  rewrite splitCommand_Join by done. cbn [targetHost command args fst snd].
  by rewrite Hblock.
Qed.

Lemma exec_broadcast_witness :
  exists cmd,
    execCommand (lit "  exec   ls    -la /tmp ") = Some cmd
    /\ eventAction (NewGuest [] (lit "h1")) (lit "Meeting from nobody: " ++ cmd) []
       = Some (lit "ls", lit "-la /tmp").
Proof.
  apply (exec_broadcast (lit "  exec   ls    -la /tmp ") (lit "ls")
           [lit "-la"; lit "/tmp"] [] (lit "h1") []); by vm_compute.
Defined.

(** ** The console's [clear] and [list] over a whole answer *)

Lemma clearEvent_cases (RemoveAll : str -> bool) (removed : list str) (count : nat)
    (event : RawObject) :
  (clearPanics event /\ clearEvent RemoveAll (removed, count) event = None)
  \/ (cleared RemoveAll event /\ ~ clearPanics event
      /\ clearEvent RemoveAll (removed, count) event
         = Some (removed ++ [rawPath event], S count))
  \/ (~ cleared RemoveAll event /\ ~ clearPanics event
      /\ clearEvent RemoveAll (removed, count) event = Some (removed, count)).
Proof.
  unfold clearEvent, cleared, clearPanics.
  destruct (rawData event) as [[|vevent others]|] eqn:Hd;
    try (right; right; split; [by intros (? & ? & ? & ? & _)|];
         split; [by intros (? & ? & ? & _)|done]).
  destruct (rawDescription vevent) as [description|] eqn:Hdesc.
  2:{ left. split; [|done]. by exists vevent, others. }
  assert (Hnp : ~ (exists v o, Some (vevent :: others) = Some (v :: o)
                                /\ rawDescription v = None)).
  { intros (v & o & [= <- <-] & H). congruence. }
  cbv zeta.
  destruct (getExecutedHosts (unescape description)) as [|host hosts] eqn:Hh.
  { right; right. split; [|done].
    intros (v & o & d & [= <- <-] & Hd' & Hne & _).
    rewrite Hdesc in Hd'. injection Hd' as <-. by rewrite Hh in Hne. }
  cbn [length Nat.ltb Nat.leb].
  destruct (RemoveAll (rawPath event)) eqn:Hr.
  - right; left. split; [|done]. exists vevent, others, description. by rewrite Hh.
  - right; right. split; [|done]. by intros (v & o & d & _ & _ & _ & ?).
Qed.

Lemma clearEvents_spec (RemoveAll : str -> bool) (events : list RawObject)
    (removed : list str) (count : nat) :
  exists more,
    (clearEvents RemoveAll (removed, count) events).1 = removed ++ more
    /\ (forall path, path ∈ more ->
          exists event, event ∈ events /\ rawPath event = path /\ cleared RemoveAll event)
    /\ ((clearEvents RemoveAll (removed, count) events).2 = None <->
          exists event, event ∈ events /\ clearPanics event)
    /\ (forall reported,
          (clearEvents RemoveAll (removed, count) events).2 = Some reported ->
          reported = (count + length more)%nat
          /\ forall event, event ∈ events -> cleared RemoveAll event ->
                           rawPath event ∈ more).
Proof.
  revert removed count. induction events as [|event events IH]; intros removed count.
  - exists []. cbn [clearEvents fst snd]. rewrite app_nil_r. repeat split.
    + by intros path ?%elem_of_nil.
    + done.
    + by intros (? & ?%elem_of_nil & _).
    + injection H as <-. cbn [length]. lia.
    + by intros event ?%elem_of_nil.
  - cbn [clearEvents].
    destruct (clearEvent_cases RemoveAll removed count event)
      as [[Hp ->]|[(Hc & Hnp & ->)|(Hnc & Hnp & ->)]].
    + exists []. cbn [fst snd]. rewrite app_nil_r. repeat split.
      * by intros path ?%elem_of_nil.
      * intros _. exists event. split; [by left|done].
      * done.
      * done.
    + destruct (IH (removed ++ [rawPath event]) (S count))
        as (more & Hrem & Hsound & Hstop & Hrep).
      exists (rawPath event :: more). split; [|split; [|split]].
      * rewrite Hrem, <- app_assoc. done.
      * intros path [->|Hin]%elem_of_cons.
        -- exists event. split; [by left|done].
        -- destruct (Hsound path Hin) as (ev & Hev & Hx). exists ev. split; [by right|done].
      * rewrite Hstop. split.
        -- intros (ev & Hev & Hx). exists ev. split; [by right|done].
        -- intros (ev & [->|Hev]%elem_of_cons & Hx); [done|]. by exists ev.
      * intros reported Hr. destruct (Hrep reported Hr) as [-> Hall]. split.
        -- cbn [length]. lia.
        -- intros ev [->|Hev]%elem_of_cons Hx; [by left|]. right. by apply Hall.
    + destruct (IH removed count) as (more & Hrem & Hsound & Hstop & Hrep).
      exists more. split; [done|]. split; [|split].
      * intros path Hin. destruct (Hsound path Hin) as (ev & Hev & Hx).
        exists ev. split; [by right|done].
      * rewrite Hstop. split.
        -- intros (ev & Hev & Hx). exists ev. split; [by right|done].
        -- intros (ev & [->|Hev]%elem_of_cons & Hx); [done|]. by exists ev.
      * intros reported Hr. destruct (Hrep reported Hr) as [-> Hall]. split; [done|].
        intros ev [->|Hev]%elem_of_cons Hx; [done|]. by apply Hall.
Qed.

(** X11.  Every path [clear] removes is that of an object whose first VEVENT
    has a description that, unescaped, holds a start marker line, and that
    the store accepted to remove: an entry without such a line is never
    removed.  [clear] stops with a panic, reporting nothing, exactly when the
    first VEVENT of some object has no DESCRIPTION; otherwise it reports as
    many entries as it removed, and it removed every such object. *)
Theorem ClearExecutedEvents_removed (RemoveAll : str -> bool) (events : list RawObject) :
  (forall path,
     path ∈ (ClearExecutedEvents RemoveAll events).1 ->
     exists event, event ∈ events /\ rawPath event = path /\ cleared RemoveAll event)
  /\ ((ClearExecutedEvents RemoveAll events).2 = None <->
      exists event, event ∈ events /\ clearPanics event)
  /\ (forall reported,
        (ClearExecutedEvents RemoveAll events).2 = Some reported ->
        reported = length (ClearExecutedEvents RemoveAll events).1
        /\ forall event, event ∈ events -> cleared RemoveAll event ->
                         rawPath event ∈ (ClearExecutedEvents RemoveAll events).1).
Proof.
  unfold ClearExecutedEvents.
  destruct (clearEvents_spec RemoveAll events [] 0%nat)
    as (more & Hrem & Hsound & Hstop & Hrep).
  rewrite Hrem. cbn [app]. split; [done|]. split; [done|].
  intros reported Hr. destruct (Hrep reported Hr) as [-> Hall]. by split.
Qed.

Lemma ListEvents_app (before after : list RawObject) :
  (ListEvents before).2 = true ->
  ListEvents (before ++ after)
  = ((ListEvents before).1 ++ (ListEvents after).1, (ListEvents after).2).
Proof.
  induction before as [|event before IH].
  - intros _. cbn [app ListEvents fst]. by destruct (ListEvents after).
  - cbn [app]. rewrite !ListEvents_cons.
    destruct (listRow event) as [row|]; [|done]. cbn [fst snd].
    intros Hf. rewrite (IH Hf). cbn [fst snd]. by rewrite app_assoc.
Qed.

(** X12.  [list] stops with a panic exactly when the data of some object of
    the answer holds no VEVENT, or its first VEVENT lacks SUMMARY,
    DESCRIPTION or UID; the rows printed are rows of objects whose summary
    carries the prefix, and when [list] comes to its end there is one for
    each such object; at the first object that makes it panic, the rows of
    the objects before it have been printed and no other. *)
Theorem ListEvents_rows (events : list RawObject) :
  ((ListEvents events).2 = false <-> exists event, event ∈ events /\ listPanics event)
  /\ (forall row, row ∈ (ListEvents events).1 ->
        exists event, event ∈ events /\ listed event row)
  /\ ((ListEvents events).2 = true ->
      forall event row, event ∈ events -> listed event row ->
                        row ∈ (ListEvents events).1)
  /\ (forall before event after,
        events = before ++ event :: after ->
        (forall earlier, earlier ∈ before -> ~ listPanics earlier) ->
        listPanics event ->
        ListEvents events = ((ListEvents before).1, false)).
Proof.
  split; [apply ListEvents_stops|]. split; [apply ListEvents_sound|].
  split; [intros Hf event row; by apply ListEvents_complete|].
  intros before event after -> Hbefore Hp.
  assert (Hf : (ListEvents before).2 = true).
  { destruct (ListEvents before).2 eqn:E; [done|].
    apply ListEvents_stops in E as (ev & Hev & Hx). by destruct (Hbefore ev Hev). }
  rewrite (ListEvents_app _ _ Hf), ListEvents_cons.
  apply listRow_None in Hp. rewrite Hp. cbn [fst snd]. by rewrite app_nil_r.
Qed.

(** ** What [extractHostOutputs] reads back *)

Lemma foldl_scanLine_represents (v : ScanVars) (st : gmap str str * Scan)
    (lines : list str) :
  represents v st -> represents (foldl scanLine v lines) (foldl machineStep st lines).
Proof.
  revert v st. induction lines as [|line lines IH]; intros v st H; [done|].
  cbn [foldl]. by apply IH, scanLine_represents.
Qed.

Lemma extractHostOutputs_run (description : str) :
  extractHostOutputs description
  = (foldl machineStep (∅, Idle) (Split description nl)).1.
Proof.
  unfold extractHostOutputs. by apply foldl_scanLine_represents.
Qed.

Lemma foldl_appendLine_nonempty (body : str) (lines : list str) :
  body <> [] -> foldl appendLine body lines = Join (body :: lines) [nl].
Proof.
  revert body. induction lines as [|line lines IH]; intros body Hne; [done|].
  cbn [foldl]. rewrite IH by by destruct body.
  destruct body as [|c body]; [done|]. cbn [appendLine].
  destruct lines as [|line2 lines]; [done|].
  rewrite !Join_cons2. by rewrite <- !app_assoc.
Qed.

Lemma foldl_appendLine_Split (s : str) :
  foldl appendLine [] (Split s nl) = dropNewlines s.
Proof.
  induction s as [|c s IH]; [done|]. simpl Split. simpl dropNewlines.
  destruct (c =? nl) eqn:Hc; [done|].
  destruct (Split_cons_other c s nl Hc) as (l & ls & E & E').
  rewrite E. cbn [foldl appendLine].
  rewrite foldl_appendLine_nonempty by done.
  rewrite <- E'. apply Join_Split.
Qed.

Lemma TrimSpace_bracketed (x : str) :
  TrimSpace (91 :: x ++ [93]) = 91 :: x ++ [93].
Proof.
  unfold TrimSpace. change (trimLeft (91 :: x ++ [93])) with (91 :: x ++ [93]).
  by apply (trimRight_app_fix (91 :: x) [93]).
Qed.

Lemma startMarker_bracketed (host : str) :
  startMarker host = 91 :: (lit "OUTPUT-" ++ host) ++ [93].
Proof.
  unfold startMarker. change (lit "[OUTPUT-") with (91 :: lit "OUTPUT-").
  change (lit "]") with [93 : N]. by rewrite <- app_assoc.
Qed.

Lemma endMarker_bracketed (host : str) :
  endMarker host = 91 :: (lit "/OUTPUT-" ++ host) ++ [93].
Proof.
  unfold endMarker. change (lit "[/OUTPUT-") with (91 :: lit "/OUTPUT-").
  change (lit "]") with [93 : N]. by rewrite <- app_assoc.
Qed.

Lemma lineKind_startMarker (host : str) : lineKind (startMarker host) = StartLine host.
Proof.
  unfold lineKind.
  replace (TrimSpace (startMarker host)) with (startMarker host)
    by (by rewrite startMarker_bracketed, TrimSpace_bracketed).
  unfold startMarker at 1. rewrite HasPrefix_app.
  fold (markerHost (startMarker host)).
  by destruct (isStartMarker_startMarker host) as [_ ->].
Qed.

Lemma lineKind_endMarker (host : str) : lineKind (endMarker host) = EndLine.
Proof.
  unfold lineKind.
  replace (TrimSpace (endMarker host)) with (endMarker host)
    by (by rewrite endMarker_bracketed, TrimSpace_bracketed).
  assert (H1 : HasPrefix (endMarker host) (lit "[OUTPUT-") = false)
    by (by rewrite endMarker_bracketed).
  assert (H2 : HasPrefix (endMarker host) (lit "[/OUTPUT-") = true)
    by apply HasPrefix_app.
  by rewrite H1, H2.
Qed.

Lemma machineStep_plain (committed : gmap str str) (scan : Scan) (line : str) :
  lineKind line = PlainLine ->
  machineStep (committed, scan) line
  = (committed,
     match scan with
     | Idle => Idle
     | Capturing host body => Capturing host (appendLine body line)
     end).
Proof. intros H. unfold machineStep. rewrite H. by destruct scan. Qed.

Lemma foldl_machineStep_plain (committed : gmap str str) (host body : str)
    (lines : list str) :
  Forall (fun line => lineKind line = PlainLine) lines ->
  foldl machineStep (committed, Capturing host body) lines
  = (committed, Capturing host (foldl appendLine body lines)).
Proof.
  intros H. revert body. induction H as [|line lines Hl _ IH]; intros body; [done|].
  cbn [foldl]. by rewrite machineStep_plain, IH.
Qed.

Lemma machineStep_committed_start (st : gmap str str * Scan) (host : str) :
  machineStep st (startMarker host) = (st.1, Capturing host []).
Proof.
  destruct st as [committed scan]. unfold machineStep.
  by rewrite lineKind_startMarker.
Qed.

(** On the text of the description: after the block of a host is appended,
    the description reads as before, with the output under the name of the
    host: provided the name is not empty and holds no newline, and no line
    of the output reads as a marker.  The body read back is the output
    without its leading newlines. *)
Lemma extractHostOutputs_appended (description host output : str) :
  host <> [] ->
  nl ∉ host ->
  Forall (fun line => lineKind line = PlainLine) (Split output nl) ->
  extractHostOutputs (newDescription description host output)
  = <[host := dropNewlines output]> (extractHostOutputs description).
Proof.
  intros Hne Hnl Hplain. rewrite !extractHostOutputs_run. unfold newDescription.
  change (description ++ [nl; nl] ++ startMarker host ++ [nl] ++ output ++ [nl]
            ++ endMarker host)
    with (description ++ nl :: ([] ++ nl :: (startMarker host ++ nl ::
            (output ++ nl :: endMarker host)))).
  rewrite !Split_app_sep.
  rewrite (Split_no_sep (startMarker host)) by by apply lit_no_newline_startMarker.
  rewrite (Split_no_sep (endMarker host)) by by apply lit_no_newline_endMarker.
  rewrite !foldl_app.
  destruct (foldl machineStep (∅, Idle) (Split description nl)) as [committed scan].
  cbn [Split foldl fst].
  rewrite machineStep_plain by done.
  rewrite machineStep_committed_start. cbn [fst].
  rewrite foldl_machineStep_plain by done.
  unfold machineStep. rewrite lineKind_endMarker.
  rewrite bool_decide_eq_false_2 by done. cbn [fst].
  by rewrite foldl_appendLine_Split.
Qed.

(** X9.  The description a guest stored by [SetText] reads back, at the
    organizer, as before with the output of the guest under its host name:
    provided description, name and output hold no backslash, the name is
    not empty and holds no newline, and no line of the output as read back
    reads as a marker.  The name and the output are read back with a
    backslash before each semicolon and comma, and the body is the output
    without its leading newlines. *)
Theorem extractHostOutputs_stored (description host output : str) :
  92 ∉ description -> 92 ∉ host -> 92 ∉ output ->
  host <> [] ->
  nl ∉ host ->
  Forall (fun line => lineKind line = PlainLine) (Split (unescape (SetText output)) nl) ->
  extractHostOutputs (unescape (SetText (newDescription description host output)))
  = <[escapePunct host := dropNewlines (unescape (SetText output))]>
      (extractHostOutputs (unescape (SetText description)))
  /\ unescape (SetText output) = escapePunct output.
Proof.
  intros Hd Hh Ho Hne Hnl Hplain. split; [|by apply unescape_SetText].
  rewrite (unescape_SetText (newDescription _ _ _))
    by by apply newDescription_no_backslash.
  rewrite (unescape_SetText description) by done.
  rewrite (unescape_SetText output) in * by done.
  rewrite escapePunct_newDescription.
  apply extractHostOutputs_appended; [by apply escapePunct_nonempty| |done].
  intros [H|H]%escapePunct_elem; [by vm_compute in H|done].
Qed.

Lemma extractHostOutputs_stored_witness :
  extractHostOutputs
    (unescape (SetText (newDescription (lit "note") (lit "h1")
                          (lit "[Host: h1]" ++ [nl] ++ lit "a,b"))))
  = <[escapePunct (lit "h1") :=
        dropNewlines (unescape (SetText (lit "[Host: h1]" ++ [nl] ++ lit "a,b")))]>
      (extractHostOutputs (unescape (SetText (lit "note"))))
  /\ unescape (SetText (lit "[Host: h1]" ++ [nl] ++ lit "a,b"))
     = escapePunct (lit "[Host: h1]" ++ [nl] ++ lit "a,b").
Proof.
  apply (extractHostOutputs_stored (lit "note") (lit "h1")
           (lit "[Host: h1]" ++ [nl] ++ lit "a,b"));
    try (intros Hin; apply list_elem_of_In in Hin; vm_compute in Hin;
         intuition discriminate).
  - done.
  - vm_compute. by repeat constructor.
Defined.

Lemma blockIn_snoc (lines : list str) (host body line : str) :
  blockIn lines host body -> blockIn (lines ++ [line]) host body.
Proof.
  intros (pre & s & mid & e & post & -> & Hs & Hm & He & Hb).
  exists pre, s, mid, e, (post ++ [line]). by rewrite <- !app_assoc.
Qed.

Lemma openBlock_close (lines : list str) (host body line : str) :
  openBlock lines host body -> lineKind line = EndLine ->
  blockIn (lines ++ [line]) host body.
Proof.
  intros (pre & s & mid & -> & Hs & Hm & Hb) He.
  exists pre, s, mid, line, []. by rewrite <- !app_assoc.
Qed.

Lemma openBlock_snoc (lines : list str) (host body line : str) :
  openBlock lines host body -> lineKind line = PlainLine ->
  openBlock (lines ++ [line]) host (appendLine body line).
Proof.
  intros (pre & s & mid & -> & Hs & Hm & ->) Hl.
  exists pre, s, (mid ++ [line]). rewrite <- !app_assoc. split; [done|].
  split; [done|]. split; [by apply Forall_app; split; [|constructor]|].
  by rewrite foldl_app.
Qed.

(** What the run of the machine over some lines holds: every committed
    body is a block of the lines under a name that is not empty, and the
    body being captured is the open block. *)
Lemma machine_blocks (lines : list str) :
  let st := foldl machineStep (∅, Idle) lines in
  (forall host body, st.1 !! host = Some body ->
     host <> [] /\ blockIn lines host body)
  /\ match st.2 with
     | Idle => True
     | Capturing host body => openBlock lines host body
     end.
Proof.
  induction lines as [|line lines IH] using rev_ind; [by split|].
  cbv zeta in *. rewrite foldl_app. cbn [foldl].
  destruct (foldl machineStep (∅, Idle) lines) as [committed scan].
  cbn [fst snd] in IH. destruct IH as [IHc IHs].
  unfold machineStep. destruct (lineKind line) as [host'| |] eqn:Hk.
  - cbn [fst snd]. split.
    + intros host body Hl. destruct (IHc _ _ Hl) as [Hne Hb].
      split; [done|]. by apply blockIn_snoc.
    + exists lines, line, []. by rewrite app_nil_r.
  - destruct scan as [|host0 body0]; cbn [fst snd].
    + split; [|done]. intros host body Hl. destruct (IHc _ _ Hl) as [Hne Hb].
      split; [done|]. by apply blockIn_snoc.
    + split; [|done]. intros host body. case_bool_decide as Hh.
      * intros Hl. destruct (IHc _ _ Hl) as [Hne Hb].
        split; [done|]. by apply blockIn_snoc.
      * rewrite lookup_insert. case_decide as Heq.
        -- intros [= <-]. subst host. split; [done|]. by apply openBlock_close.
        -- intros Hl. destruct (IHc _ _ Hl) as [Hne Hb].
           split; [done|]. by apply blockIn_snoc.
  - destruct scan as [|host0 body0]; cbn [fst snd].
    + split; [|done]. intros host body Hl. destruct (IHc _ _ Hl) as [Hne Hb].
      split; [done|]. by apply blockIn_snoc.
    + split; [|by apply openBlock_snoc].
      intros host body Hl. destruct (IHc _ _ Hl) as [Hne Hb].
      split; [done|]. by apply blockIn_snoc.
Qed.

(** X10.  Every body [extractHostOutputs] returns stands under a name that is not
    empty and is a block of the description: the lines between a start line
    of that host and the first end line after it; without an end line
    nothing is returned. *)
Theorem extractHostOutputs_blockIn (description host body : str) :
  extractHostOutputs description !! host = Some body ->
  host <> [] /\ blockIn (Split description nl) host body.
Proof.
  rewrite extractHostOutputs_run.
  destruct (machine_blocks (Split description nl)) as [H _]. apply H.
Qed.

Lemma extractHostOutputs_blockIn_witness :
  lit "h1" <> []
  /\ blockIn (Split (lit "[OUTPUT-h1]" ++ [nl] ++ lit "ok" ++ [nl] ++ lit "[/OUTPUT-h1]") nl)
       (lit "h1") (lit "ok").
Proof.
  apply (extractHostOutputs_blockIn
           (lit "[OUTPUT-h1]" ++ [nl] ++ lit "ok" ++ [nl] ++ lit "[/OUTPUT-h1]")).
  by vm_compute.
Defined.

(** ** A poll of the guest only appends *)

Lemma extendsObject_refl (object : option (list Component)) :
  extendsObject object object.
Proof.
  destruct object as [[|vevent others]|]; try done.
  repeat split. exists []. by rewrite app_nil_r.
Qed.

Lemma extendsObject_trans (a b c : option (list Component)) :
  extendsObject a b -> extendsObject b c -> extendsObject a c.
Proof.
  destruct a as [[|va oa]|]; cbn [extendsObject].
  - by intros ->.
  - destruct b as [[|vb ob]|]; try done.
    intros (-> & Hs & Hu & suffix & Hd).
    destruct c as [[|vc oc]|]; try done. cbn [extendsObject].
    intros (-> & Hs' & Hu' & suffix' & Hd'). repeat split; try congruence.
    exists (suffix ++ suffix'). by rewrite Hd', Hd, app_assoc.
  - by intros ->.
Qed.

Lemma appendOnly_refl (st : gmap str (option (list Component))) : appendOnly st st.
Proof. intros path. destruct (st !! path); [apply extendsObject_refl | done]. Qed.

Lemma appendOnly_trans (a b c : gmap str (option (list Component))) :
  appendOnly a b -> appendOnly b c -> appendOnly a c.
Proof.
  intros Hab Hbc path. specialize (Hab path). specialize (Hbc path).
  destruct (a !! path), (b !! path), (c !! path); try done.
  by eapply extendsObject_trans.
Qed.

Lemma UpdateEventWithOutput_appendOnly (g : Guest) (srv : Server)
    (st st' : gmap str (option (list Component))) (uid out path : str) :
  UpdateEventWithOutput g srv st uid out path = Some st' -> appendOnly st st'.
Proof.
  unfold UpdateEventWithOutput.
  destruct (fetchFails srv path); [intros [= <-]; apply appendOnly_refl|].
  destruct (st !! path) as [[[|vevent others]|]|] eqn:Hget; try done;
    try (intros [= <-]; apply appendOnly_refl).
  destruct (putAccepted srv path _); [|intros [= <-]; apply appendOnly_refl].
  intros [= <-] q. destruct (decide (q = path)) as [->|Hne].
  - rewrite Hget, lookup_insert_eq. cbn. repeat split. by eexists.
  - rewrite lookup_insert_ne by done.
    destruct (st !! q); [apply extendsObject_refl | done].
Qed.

Lemma processEvent_appendOnly (g : Guest) (os : OS) (srv : Server) (w w' : World)
    (eventData : CalendarObject) :
  processEvent g os srv w eventData = Some w' ->
  appendOnly (store w) (store w')
  /\ exists more, executed w' = executed w ++ more.
Proof.
  unfold processEvent.
  assert (Hsame : appendOnly (store w) (store w)
                  /\ exists more, executed w = executed w ++ more).
  { split; [apply appendOnly_refl|]. exists []. by rewrite app_nil_r. }
  destruct (Data eventData) as [[|vevent others]|]; try (by intros [= <-]).
  destruct (Summary vevent) as [summary|]; [|by intros [= <-]].
  destruct (eventAction g summary (Description vevent)) as [[cmd argstr]|];
    [|by intros [= <-]].
  destruct (UpdateEventWithOutput _ _ _ _ _ _) as [st'|] eqn:Hupd; [|done].
  intros [= <-]. cbn [store executed]. split; [|by eexists].
  by eapply UpdateEventWithOutput_appendOnly.
Qed.

(** X2.  Over a whole poll the guest creates and deletes no object, changes no
    summary and no UID, and changes a description only by appending to it;
    the record of executed commands only grows.  This holds however the
    server answers the fetches and the puts. *)
Theorem processEvents_appendOnly (g : Guest) (os : OS) (srv : Server)
    (events : list CalendarObject) (w w' : World) :
  processEvents g os srv w events = Some w' ->
  appendOnly (store w) (store w')
  /\ exists more, executed w' = executed w ++ more.
Proof.
  revert w. induction events as [|eventData events IH]; intros w; cbn [processEvents].
  - intros [= <-]. split; [apply appendOnly_refl|]. exists []. by rewrite app_nil_r.
  - destruct (processEvent g os srv w eventData) as [w1|] eqn:E; [|done].
    intros H. destruct (processEvent_appendOnly _ _ _ _ _ _ E) as [Ha (m1 & Hm1)].
    destruct (IH _ H) as [Hb (m2 & Hm2)]. split.
    + by eapply appendOnly_trans.
    + exists (m1 ++ m2). by rewrite Hm2, Hm1, app_assoc.
Qed.

Lemma processEvents_appendOnly_witness :
  appendOnly (store (created scenarioPath (lit "whoami")))
    (<[scenarioPath :=
         Some [ {| Summary := Some (lit "Meeting from nobody: whoami");
                   Description :=
                     newDescription [] (lit "h1")
                       (ExecuteCommand guest1 linuxOS (lit "whoami") []);
                   UID := lit "u1" |} ]]>
       (store (created scenarioPath (lit "whoami"))))
  /\ exists more, [(lit "whoami", @nil N)] = [] ++ more.
Proof.
  apply (processEvents_appendOnly guest1 linuxOS acceptingServer
           [fetch (store (created scenarioPath (lit "whoami"))) scenarioPath]
           (created scenarioPath (lit "whoami"))
           {| store := _; executed := [(lit "whoami", [])] |}).
  reflexivity.
Defined.

(** ** A second poll executes nothing *)

Lemma settled_skip (g : Guest) (os : OS) (srv : Server) (w : World) (path : str) :
  settled g (store w !! path) ->
  processEvent g os srv w (fetch (store w) path) = Some w.
Proof.
  unfold settled, processEvent, fetch. cbn [Data Path].
  destruct (store w !! path) as [[[|vevent others]|]|]; try done.
  destruct (Summary vevent) as [summary|]; [|done]. by intros ->.
Qed.

(** Processing the object of a path, as the snapshot [st0] holds it, in a
    world that still holds it so, with a server that answers the fetch and
    accepts the put: the object is settled afterwards, and no other path is
    touched. *)
Lemma processEvent_settles (cal h : str) (os : OS) (srv : Server) (w w' : World)
    (st0 : gmap str (option (list Component))) (path : str) :
  fetchFails srv path = false ->
  (forall cal', putAccepted srv path cal' = true) ->
  store w !! path = st0 !! path ->
  processEvent (NewGuest cal h) os srv w (fetch st0 path) = Some w' ->
  settled (NewGuest cal h) (store w' !! path)
  /\ forall other, other <> path -> store w' !! other = store w !! other.
Proof.
  intros Hfetch Hput Hsame.
  unfold processEvent, fetch, settled. cbn [Data Path]. rewrite <- Hsame.
  destruct (store w !! path) as [[[|vevent others]|]|] eqn:Hget;
    try (intros [= <-]; by rewrite Hget).
  destruct (Summary vevent) as [summary|] eqn:Hsum;
    [|intros [= <-]; by rewrite Hget, Hsum].
  destruct (eventAction _ summary _) as [[cmd argstr]|] eqn:Hact;
    [|intros [= <-]; by rewrite Hget, Hsum, Hact].
  unfold UpdateEventWithOutput. rewrite Hfetch, Hget, Hput.
  intros [= <-]. cbn [store]. split.
  - rewrite lookup_insert_eq. cbn [Summary Description]. rewrite Hsum.
    by rewrite eventAction_HasBlock by apply newDescription_HasBlock.
  - intros other Hne. by rewrite lookup_insert_ne.
Qed.

Lemma processEvents_settles (cal h : str) (os : OS) (srv : Server)
    (st0 : gmap str (option (list Component))) (paths : list str) (w w' : World) :
  NoDup paths ->
  (forall path, path ∈ paths -> fetchFails srv path = false) ->
  (forall path cal', path ∈ paths -> putAccepted srv path cal' = true) ->
  (forall path, path ∈ paths -> store w !! path = st0 !! path) ->
  processEvents (NewGuest cal h) os srv w (fetch st0 <$> paths) = Some w' ->
  (forall path, path ∈ paths -> settled (NewGuest cal h) (store w' !! path))
  /\ (forall other, other ∉ paths -> store w' !! other = store w !! other).
Proof.
  intros Hnd. revert w.
  induction Hnd as [|path paths Hni Hnd IH]; intros w Hfetch Hput Hsame.
  - intros [= <-]. split; [by intros ? ?%elem_of_nil|done].
  - rewrite fmap_cons. cbn [processEvents].
    destruct (processEvent _ os srv w (fetch st0 path)) as [w1|] eqn:E; [|done].
    intros H.
    destruct (processEvent_settles _ _ _ _ _ _ _ _
                (Hfetch path ltac:(by left))
                (fun cal' => Hput path cal' ltac:(by left))
                (Hsame path ltac:(by left)) E)
      as [Hset Hother].
    destruct (IH w1) as [IHset IHother]; [| | |done|].
    { intros q Hq. apply Hfetch. by right. }
    { intros q cal' Hq. apply Hput. by right. }
    { intros q Hq. rewrite Hother; [apply Hsame; by right|].
      intros ->. done. }
    split.
    + intros q [->|Hq]%elem_of_cons; [|by apply IHset].
      by rewrite IHother.
    + intros other [Hne Hno]%not_elem_of_cons.
      by rewrite IHother, Hother.
Qed.

Lemma processEvents_settled (g : Guest) (os : OS) (srv : Server) (w : World)
    (paths : list str) :
  (forall path, path ∈ paths -> settled g (store w !! path)) ->
  processEvents g os srv w (fetch (store w) <$> paths) = Some w.
Proof.
  induction paths as [|path paths IH]; intros Hset; [done|].
  rewrite fmap_cons. cbn [processEvents].
  rewrite settled_skip by (apply Hset; by left).
  apply IH. intros q Hq. apply Hset. by right.
Qed.

(** X1.  After a poll over objects of the store, each answered once, for
    which the server answered every fetch and accepted every put, a second
    poll over the same objects executes nothing and leaves the store as it
    is, however the server answers then: every object was skipped or now
    holds the block of the guest.  (When a put is refused the block is
    missing and the next poll executes the command again.) *)
Theorem processEvents_twice (cal h : str) (os : OS) (srv srv' : Server)
    (paths : list str) (w w' : World) :
  NoDup paths ->
  (forall path, path ∈ paths -> fetchFails srv path = false) ->
  (forall path cal', path ∈ paths -> putAccepted srv path cal' = true) ->
  processEvents (NewGuest cal h) os srv w (fetch (store w) <$> paths) = Some w' ->
  processEvents (NewGuest cal h) os srv' w' (fetch (store w') <$> paths) = Some w'.
Proof.
  intros Hnd Hfetch Hput H. apply processEvents_settled.
  by destruct (processEvents_settles _ _ _ _ _ _ _ _ Hnd Hfetch Hput
                 (fun _ _ => eq_refl) H).
Qed.

Lemma processEvents_twice_witness :
  processEvents guest1 linuxOS acceptingServer
    {| store :=
         <[scenarioPath :=
             Some [ {| Summary := Some (lit "Meeting from nobody: whoami");
                       Description :=
                         newDescription [] (lit "h1")
                           (ExecuteCommand guest1 linuxOS (lit "whoami") []);
                       UID := lit "u1" |} ]]>
           (store (created scenarioPath (lit "whoami")));
       executed := [(lit "whoami", [])] |}
    (fetch
       (<[scenarioPath :=
            Some [ {| Summary := Some (lit "Meeting from nobody: whoami");
                      Description :=
                        newDescription [] (lit "h1")
                          (ExecuteCommand guest1 linuxOS (lit "whoami") []);
                      UID := lit "u1" |} ]]>
          (store (created scenarioPath (lit "whoami"))))
     <$> [scenarioPath])
  = Some
      {| store :=
           <[scenarioPath :=
               Some [ {| Summary := Some (lit "Meeting from nobody: whoami");
                         Description :=
                           newDescription [] (lit "h1")
                             (ExecuteCommand guest1 linuxOS (lit "whoami") []);
                         UID := lit "u1" |} ]]>
             (store (created scenarioPath (lit "whoami")));
         executed := [(lit "whoami", [])] |}.
Proof.
  apply (processEvents_twice (lit "calendars/admin/personal/") (lit "h1") linuxOS
           acceptingServer acceptingServer
           [scenarioPath] (created scenarioPath (lit "whoami"))).
  - apply NoDup_singleton.
  - done.
  - done.
  - reflexivity.
Defined.

(** A refused put leaves no block: the command is executed, the store is
    as before, and the same entry is executed again when it is processed
    again. *)
Lemma processEvent_refused_put (cal h : str) (os : OS) (srv : Server) (w : World)
    (path : str) (vevent : Component) (others : list Component)
    (summary cmd argstr : str) :
  store w !! path = Some (Some (vevent :: others)) ->
  Summary vevent = Some summary ->
  eventAction (NewGuest cal h) summary (Description vevent) = Some (cmd, argstr) ->
  (forall cal', putAccepted srv path cal' = false) ->
  processEvent (NewGuest cal h) os srv w (fetch (store w) path)
  = Some {| store := store w; executed := executed w ++ [(cmd, argstr)] |}.
Proof.
  intros Hget Hsum Hact Hput. unfold processEvent, fetch. cbn [Data Path].
  rewrite Hget, Hsum, Hact. unfold UpdateEventWithOutput. rewrite Hget, Hput.
  by destruct (fetchFails srv path).
Qed.

(** ** The shell line *)

(** X5.  The line handed to the shell, the command, a space and the arguments,
    has the words of the command text, in order: splitting and joining
    changes white space only.  The command and the arguments never begin or
    end with white space. *)
Theorem splitCommand_words (actualCmd : str) :
  Fields ((splitCommand actualCmd).1 ++ lit " " ++ (splitCommand actualCmd).2)
  = Fields actualCmd
  /\ TrimSpace (splitCommand actualCmd).1 = (splitCommand actualCmd).1
  /\ TrimSpace (splitCommand actualCmd).2 = (splitCommand actualCmd).2.
Proof.
  unfold splitCommand. cbn [fst snd]. change (lit " ") with [32 : N].
  pose proof (Fields_Token actualCmd) as Htok.
  assert (Htrim : forall t, Token t -> TrimSpace t = t).
  { intros t Ht. unfold TrimSpace.
    destruct (Token_head _ Ht) as (c & t' & -> & Hc). simpl trimLeft. rewrite Hc.
    by apply Token_trimRight. }
  destruct (Fields actualCmd) as [|word [|arg argv]]; [done| |].
  - inversion Htok as [|? ? Hw _]; subst. split; [|by split; [apply Htrim|]].
    change (word ++ [32] ++ []) with (word ++ 32 :: []).
    by rewrite Fields_token_sp.
  - inversion Htok as [|? ? Hw Hrest]; subst. split; [|split; [by apply Htrim|]].
    + change (word ++ [32] ++ Join (arg :: argv) [32])
        with (word ++ 32 :: Join (arg :: argv) [32]).
      rewrite Fields_token_sp by done. by rewrite Fields_Join.
    + unfold TrimSpace. inversion Hrest as [|? ? Ha _]; subst.
      rewrite trimLeft_Join by done.
      by apply Join_tokens_trimRight.
Qed.

(** ** What [get] shows *)

Lemma blockIn_end_line (lines : list str) (host body : str) :
  blockIn lines host body -> exists line, line ∈ lines /\ lineKind line = EndLine.
Proof.
  intros (pre & s & mid & e & post & -> & _ & _ & He & _).
  exists e. split; [|done]. rewrite !elem_of_app.
  right; right; right; left. by apply list_elem_of_singleton.
Qed.

(** X13.  [get] shows a host only when the description holds an end line:
    an entry with a summary and a description whose unescaped description
    holds no end line is reported as not yet executed, whatever start markers
    it holds and whatever [list] says; an entry whose first VEVENT lacks the
    summary or the description makes [get] panic. *)
Theorem GetEventOutput_without_end_line (event : RawObject) (others : list RawObject)
    (vevent : RawEvent) (rest : list RawEvent) :
  rawData event = Some (vevent :: rest) ->
  (forall summary description,
     rawSummary vevent = Some summary ->
     rawDescription vevent = Some description ->
     (forall line, line ∈ Split (unescape description) nl -> lineKind line <> EndLine) ->
     GetEventOutput (Some (event :: others)) = NotExecuted summary)
  /\ (rawSummary vevent = None \/ rawDescription vevent = None ->
      GetEventOutput (Some (event :: others)) = MissingProperty).
Proof.
  intros Hd. unfold GetEventOutput. rewrite Hd. split.
  - intros summary description -> -> Hno. cbv zeta.
    assert (E : extractHostOutputs (unescape description) = ∅).
    { apply map_empty. intros host.
      destruct (extractHostOutputs _ !! host) as [body|] eqn:Hl; [|done].
      rewrite extractHostOutputs_run in Hl.
      destruct (machine_blocks (Split (unescape description) nl)) as [H _].
      destruct (H _ _ Hl) as [_ Hb].
      destruct (blockIn_end_line _ _ _ Hb) as (line & Hin & He).
      by destruct (Hno line Hin). }
    by rewrite E, map_size_empty.
  - intros [->| ->]; [done|]. by destruct (rawSummary vevent).
Qed.

Lemma GetEventOutput_without_end_line_witness :
  GetEventOutput
    (Some [ {| rawPath := lit "/cal/u1.ics";
               rawData := Some [ {| rawSummary := Some (lit "Meeting from nobody: pwd");
                                    rawDescription := Some (lit "[OUTPUT-h1]\n/srv");
                                    rawUID := Some (lit "u1") |} ] |} ])
  = NotExecuted (lit "Meeting from nobody: pwd")
  /\ eventStatus (unescape (lit "[OUTPUT-h1]\n/srv")) = lit "Executed (h1)".
Proof.
  split; [|by vm_compute].
  apply (proj1 (GetEventOutput_without_end_line
           {| rawPath := lit "/cal/u1.ics";
              rawData := Some [ {| rawSummary := Some (lit "Meeting from nobody: pwd");
                                   rawDescription := Some (lit "[OUTPUT-h1]\n/srv");
                                   rawUID := Some (lit "u1") |} ] |} []
           {| rawSummary := Some (lit "Meeting from nobody: pwd");
              rawDescription := Some (lit "[OUTPUT-h1]\n/srv");
              rawUID := Some (lit "u1") |} [] eq_refl)
           (lit "Meeting from nobody: pwd") (lit "[OUTPUT-h1]\n/srv") eq_refl eq_refl).
  intros line Hin. apply list_elem_of_In in Hin. vm_compute in Hin.
  destruct Hin as [<-|[<-|[]]]; by vm_compute.
Defined.
